(** * shopify_downloader: a shallow embedding of [src/index.js]

    The script enumerates the files of a Shopify store through a paginated
    GraphQL query ([fetchAllFiles]), classifies every record
    ([resolveFileInfo]) and materialises it under the output directory
    ([downloadFiles]).

    Conventions of the embedding.
    - JavaScript strings are [string]; the only characters the code inspects
      are the ASCII characters [?] and [/], so working on bytes is exact.
    - [null] and [undefined] are both [None]; the GraphQL schema types every
      field read by the code as a string or as absent.
    - An exception is a value of [JsError]; a computation that may throw
      returns a [Completion].
    - Console output and the other observable effects are recorded as
      structured [Event]s, one constructor per call site, carrying the values
      interpolated into the message.  The floating point percentage is not
      part of the events. *)

From Stdlib Require Import Strings.Ascii Strings.String Strings.Byte.
From stdpp Require Import base option list gmap strings pretty.

Open Scope string_scope.
Open Scope list_scope.

(** ** Strings: [String.prototype.split] and [path.basename] *)

Module Js.

(** [s.split(sep)] for a one-character separator: the pieces between the
    occurrences of [sep]; the result is never empty. *)
Fixpoint split (sep : ascii) (s : string) : list string :=
  match s with
  | EmptyString => [EmptyString]
  | String c rest =>
      if Ascii.eqb c sep then EmptyString :: split sep rest
      else match split sep rest with
           | piece :: pieces => String c piece :: pieces
           | [] => [String c EmptyString]
           end
  end.

(** [xs[0]] on an array of strings that [split] produced. *)
Definition first (xs : list string) : string := hd EmptyString xs.

End Js.

Module Path.

Definition sep : ascii := "/"%char.

Definition chars (s : string) : list ascii := list_ascii_of_string s.
Definition of_chars (l : list ascii) : string := string_of_list_ascii l.

Fixpoint drop_seps (l : list ascii) : list ascii :=
  match l with
  | c :: rest => if Ascii.eqb c sep then drop_seps rest else l
  | [] => []
  end.

Fixpoint take_segment (l : list ascii) : list ascii :=
  match l with
  | c :: rest => if Ascii.eqb c sep then [] else c :: take_segment rest
  | [] => []
  end.

(** Node's [path.basename] on POSIX, a function of the runtime library:
    the scan runs from the end of the path, ignores trailing separators,
    and returns the characters up to (not including) the next separator. *)
Definition basename (p : string) : string :=
  of_chars (reverse (take_segment (drop_seps (reverse (chars p))))).

End Path.

(** ** Data model *)

(** The nested objects [image { url }] and [originalSource { url }]. *)
Record UrlHolder := { holder_url : option string }.

(** A node of the [files] connection, with the fields the query selects. *)
Record FileNode := {
  typename : string;            (* __typename *)
  createdAt : option string;
  id : option string;
  alt : option string;
  url : option string;          (* GenericFile *)
  fileStatus : option string;   (* GenericFile *)
  image : option UrlHolder;     (* MediaImage *)
  originalSource : option UrlHolder; (* Video, Model3d *)
  embeddedUrl : option string   (* ExternalVideo *)
}.

(** The object [{ url, folder }] that [resolveFileInfo] returns. *)
Record FileInfo := { info_url : option string; folder : string }.

(** [obj?.url] *)
Definition opt_url (o : option UrlHolder) : option string :=
  match o with
  | Some h => holder_url h
  | None => None
  end.

(** ** [resolveFileInfo] *)

Definition resolveFileInfo (file : FileNode) : FileInfo :=
  let t := typename file in
  if String.eqb t "GenericFile" then
    {| info_url := url file; folder := "generic" |}
  else if String.eqb t "MediaImage" then
    {| info_url := opt_url (image file); folder := "images" |}
  else if String.eqb t "Video" then
    {| info_url := opt_url (originalSource file); folder := "videos" |}
  else if String.eqb t "ExternalVideo" then
    {| info_url := embeddedUrl file; folder := "external" |}
  else if String.eqb t "Model3d" then
    {| info_url := opt_url (originalSource file); folder := "models" |}
  else
    {| info_url := None; folder := "unknown" |}.

(** [!url]: [null], [undefined] and the empty string are falsy. *)
Definition truthy_url (u : option string) : option string :=
  match u with
  | Some s => if String.eqb s "" then None else Some s
  | None => None
  end.

(** ** File name of a resolved URL *)

(** [url.split("?")[0]] *)
Definition cleanUrl (u : string) : string := Js.first (Js.split "?"%char u).

(** [path.basename(cleanUrl)] *)
Definition fileName (u : string) : string := Path.basename (cleanUrl u).

(** ** Exceptions and completions *)

Inductive JsError :=
| Error (msg : string)
| TypeError (msg : string).

(** [err.message] *)
Definition message (e : JsError) : string :=
  match e with
  | Error m => m
  | TypeError m => m
  end.

(** How a piece of code ends: normally with a value, by a thrown exception,
    by [process.exit(code)], or not at all within the scripted interaction
    ([Pending]: it awaits a response that the script does not contain). *)
Inductive Completion (A : Type) :=
| Normal (a : A)
| Throw (e : JsError)
| Exit (code : Z)
| Pending.

Arguments Normal {A} a.
Arguments Throw {A} e.
Arguments Exit {A} code.
Arguments Pending {A}.

(** The status with which the Node process ends: the argument of
    [process.exit], [1] after an uncaught exception, [0] when the program
    runs to its end. *)
Definition exit_status {A} (c : Completion A) : option Z :=
  match c with
  | Normal _ => Some 0%Z
  | Throw _ => Some 1%Z
  | Exit code => Some code
  | Pending => None
  end.

Definition Buffer := list byte.

(** ** Observable events, one constructor per call site *)

Inductive Event :=
| ErrMissingConfig                                   (* line 11 *)
| MkDir (full : string)                              (* line 19 *)
| LogFetchingPage (page : nat)                       (* line 30 *)
| GraphQLRequest (cursor : option string)            (* line 73, variables: { cursor } *)
| ErrGraphQLErrors (errors : string)                 (* line 97 *)
| WarnNoUrl (id : option string) (kind : string)     (* line 151 *)
| OutSkipped (downloaded total : nat) (folder fileName : string)  (* line 162 *)
| ContentRequest (url : string)                      (* line 167 *)
| ErrFailed (fileName statusText : string)           (* line 169 *)
| FileWritten (filePath : string) (data : Buffer)    (* line 174 *)
| OutSaved (downloaded total : nat) (folder fileName : string)    (* line 178 *)
| ErrDownloading (url msg : string)                  (* line 180 *)
| LogAllProcessed (downloaded total : nat)           (* line 184 *)
| LogFetchingAll                                     (* line 190 *)
| LogFound (n : nat)                                 (* line 192 *)
| LogDone (dir : string)                             (* line 195 *)
| ErrTopLevel (msg : string).                        (* line 197 *)

(** ** The GraphQL endpoint, as a script of responses *)

Record Edge := { cursor : string; node : FileNode }.

(** [data.data.files]: [edges] may be [null]. *)
Record FilesPage := { edges : option (list Edge); hasNextPage : bool }.

(** What one POST to the endpoint can produce. *)
Inductive Response :=
| FetchRejected (errMessage : string)   (* unreachable, or aborted by the 15000 ms timer *)
| HttpStatus (status : N) (text : string)  (* res.ok is false *)
| MalformedBody (e : JsError)           (* res.json() rejects, or data.data.files is missing *)
| GraphQLErrors (errors : string)       (* data.errors is truthy *)
| FilesData (p : FilesPage).

(** The local variables of [fetchAllFiles]. *)
Record EnumState := {
  st_allFiles : list FileNode;
  st_hasNextPage : bool;
  st_cursor : option string;
  st_page : nat
}.

Definition enum_init : EnumState :=
  {| st_allFiles := []; st_hasNextPage := true; st_cursor := None; st_page := 1 |}.

(** [hasNextPage ? edges[edges.length - 1].cursor : null]; reading [.cursor]
    of [undefined] throws. *)
Definition next_cursor (hasNext : bool) (es : list Edge) : Completion (option string) :=
  if hasNext then
    match last es with
    | Some e => Normal (Some (cursor e))
    | None => Throw (TypeError "Cannot read properties of undefined (reading 'cursor')")
    end
  else Normal None.

(** One iteration of the [while] loop (lines 30-106) on the response [r]. *)
Definition fetch_page (st : EnumState) (r : Response) : list Event * Completion EnumState :=
  let sent := [LogFetchingPage (st_page st); GraphQLRequest (st_cursor st)] in
  match r with
  | FetchRejected m => (sent, Throw (Error ("Network error: " +:+ m)))
  | HttpStatus status text =>
      (sent, Throw (Error ("GraphQL error " +:+ pretty status +:+ ": " +:+ text)))
  | MalformedBody e => (sent, Throw e)
  | GraphQLErrors errors =>
      (sent ++ [ErrGraphQLErrors errors], Throw (Error "Shopify GraphQL query failed"))
  | FilesData p =>
      let es := default [] (edges p) in
      let all := st_allFiles st ++ (node <$> es) in
      match next_cursor (hasNextPage p) es with
      | Normal c =>
          (sent, Normal {| st_allFiles := all; st_hasNextPage := hasNextPage p;
                           st_cursor := c; st_page := S (st_page st) |})
      | Throw e => (sent, Throw e)
      | Exit code => (sent, Exit code)
      | Pending => (sent, Pending)
      end
  end.

(** A run of the enumerator: how it ended, what it did, and the responses of
    the script it did not consume. *)
Record EnumRun := {
  enum_result : Completion (list FileNode);
  enum_trace : list Event;
  enum_unread : list Response
}.

Definition enum_after (evs : list Event) (r : EnumRun) : EnumRun :=
  {| enum_result := enum_result r; enum_trace := evs ++ enum_trace r;
     enum_unread := enum_unread r |}.

(** The [while (hasNextPage)] loop, from the state [st]. *)
Fixpoint fetch_loop (script : list Response) (st : EnumState) : EnumRun :=
  if st_hasNextPage st then
    match script with
    | [] => {| enum_result := Pending; enum_trace := []; enum_unread := [] |}
    | r :: rest =>
        match fetch_page st r with
        | (evs, Normal st') => enum_after evs (fetch_loop rest st')
        | (evs, Throw e) =>
            {| enum_result := Throw e; enum_trace := evs; enum_unread := rest |}
        | (evs, Exit code) =>
            {| enum_result := Exit code; enum_trace := evs; enum_unread := rest |}
        | (evs, Pending) =>
            {| enum_result := Pending; enum_trace := evs; enum_unread := rest |}
        end
    end
  else
    {| enum_result := Normal (st_allFiles st); enum_trace := []; enum_unread := script |}.

Definition fetchAllFiles (script : list Response) : EnumRun :=
  fetch_loop script enum_init.

(** ** The machine: file system and event log *)

Inductive Entry :=
| Directory
| File (data : Buffer).

(** Paths are the strings that [path.join] returns, which are normalised:
    two paths are the same file exactly when they are the same string. *)
Record Machine := {
  disk : gmap string Entry;   (* what exists, by path *)
  log : list Event            (* events so far, oldest first *)
}.

(** What a content request ([fetch(url)], line 167) can produce. *)
Inductive Body :=
| BodyBytes (data : Buffer)
| BodyFails (errMessage : string).       (* res.arrayBuffer() rejects *)

Record ContentResponse := { ok : bool; statusText : string; body : Body }.

Inductive FetchResult :=
| Rejected (errMessage : string)          (* fetch rejects *)
| Responded (res : ContentResponse).

(** The environment the pipeline runs against: the content server, and
    whether the file system refuses a write or a directory creation (the
    refused operation leaves the disk as it was). *)
Record World := {
  http_get : string -> FetchResult;
  write_failure : gmap string Entry -> string -> option string;
  mkdir_failure : gmap string Entry -> string -> option string
}.

(** Computations over the machine that may end abruptly; the effects made
    before an abrupt end stay. *)
Definition M (A : Type) : Type := Machine -> Completion A * Machine.

Definition ret {A} (a : A) : M A := fun m => (Normal a, m).

Definition bind {A B} (c : M A) (k : A -> M B) : M B :=
  fun m =>
    match c m with
    | (Normal a, m') => k a m'
    | (Throw e, m') => (Throw e, m')
    | (Exit code, m') => (Exit code, m')
    | (Pending, m') => (Pending, m')
    end.

Notation "x <- c ;; k" := (bind c (fun x => k))
  (at level 100, c at next level, right associativity).
Notation "c ;;; k" := (bind c (fun _ => k))
  (at level 100, k at level 200, right associativity).

(** [try { c } catch (e) { handler e }] *)
Definition try_catch {A} (c : M A) (handler : JsError -> M A) : M A :=
  fun m =>
    match c m with
    | (Throw e, m') => handler e m'
    | other => other
    end.

Definition emit (e : Event) : M unit :=
  fun m => (Normal tt, {| disk := disk m; log := log m ++ [e] |}).

Definition throw {A} (e : JsError) : M A := fun m => (Throw e, m).

(** [process.exit(code)] *)
Definition process_exit {A} (code : Z) : M A := fun m => (Exit code, m).

(** [fs.existsSync(p)] *)
Definition existsSync (p : string) : M bool :=
  fun m => (Normal (bool_decide (is_Some (disk m !! p))), m).

(** The proper ancestors of a path, outermost first: its non-empty prefixes
    that end just before a separator ([a] and [a/b] for [a/b/c]). *)
Fixpoint ancestors_from (seen rest : list ascii) : list string :=
  match rest with
  | [] => []
  | c :: rest' =>
      let deeper := ancestors_from (seen ++ [c]) rest' in
      if Ascii.eqb c Path.sep then
        match seen with
        | [] => deeper
        | _ :: _ => Path.of_chars seen :: deeper
        end
      else deeper
  end.

Definition ancestors (p : string) : list string :=
  ancestors_from [] (Path.chars p).

(** Creating the directory [p] unless something exists there. *)
Definition ensure_directory (dk : gmap string Entry) (p : string) : gmap string Entry :=
  match dk !! p with
  | Some _ => dk
  | None => <[p := Directory]> dk
  end.

(** [fs.mkdirSync(p, { recursive: true })], called on a path where nothing
    exists: unless the file system refuses (which includes an ancestor that
    is a file), the missing ancestors of [p] are created, then [p]. *)
Definition mkdirSync (w : World) (p : string) : M unit :=
  fun m =>
    match mkdir_failure w (disk m) p with
    | Some msg => (Throw (Error msg), m)
    | None =>
        (Normal tt,
         {| disk := <[p := Directory]> (foldl ensure_directory (disk m) (ancestors p));
            log := log m ++ [MkDir p] |})
    end.

(** [fs.writeFileSync(p, data)] *)
Definition writeFileSync (w : World) (p : string) (data : Buffer) : M unit :=
  fun m =>
    match write_failure w (disk m) p with
    | Some msg => (Throw (Error msg), m)
    | None =>
        (Normal tt, {| disk := <[p := File data]> (disk m);
                       log := log m ++ [FileWritten p data] |})
    end.

(** [await fetch(url)] *)
Definition fetch (w : World) (u : string) : M ContentResponse :=
  emit (ContentRequest u) ;;;
  match http_get w u with
  | Rejected msg => throw (Error msg)
  | Responded res => ret res
  end.

(** [await res.arrayBuffer()] *)
Definition arrayBuffer (res : ContentResponse) : M Buffer :=
  match body res with
  | BodyBytes data => ret data
  | BodyFails msg => throw (Error msg)
  end.

(** ** [downloadFiles] *)

Section Pipeline.

(** [path.join] of the runtime library, and the constant [OUTPUT_DIR]. *)
Variable path_join : list string -> string.
Variable OUTPUT_DIR : string.
Variable w : World.

(** [path.join(OUTPUT_DIR, folder, fileName)] for a truthy [url]. *)
Definition filePath (folder url : string) : string :=
  path_join [OUTPUT_DIR; folder; fileName url].

(** The body of the [for] loop (lines 149-181): the new value of
    [downloaded]. *)
Definition download_one (total : nat) (file : FileNode) (downloaded : nat) : M nat :=
  let info := resolveFileInfo file in
  match truthy_url (info_url info) with
  | None =>
      emit (WarnNoUrl (id file) (typename file)) ;;;
      ret downloaded
  | Some url =>
      let name := fileName url in
      let target := filePath (folder info) url in
      present <- existsSync target ;;
      if present then
        emit (OutSkipped (S downloaded) total (folder info) name) ;;;
        ret (S downloaded)
      else
        try_catch
          (res <- fetch w url ;;
           if negb (ok res) then
             emit (ErrFailed name (statusText res)) ;;;
             ret downloaded
           else
             buffer <- arrayBuffer res ;;
             writeFileSync w target buffer ;;;
             emit (OutSaved (S downloaded) total (folder info) name) ;;;
             ret (S downloaded))
          (fun e =>
             emit (ErrDownloading url (message e)) ;;;
             ret downloaded)
  end.

(** [for (const file of files)], threading [downloaded]. *)
Fixpoint for_files (total : nat) (files : list FileNode) (downloaded : nat) : M nat :=
  match files with
  | [] => ret downloaded
  | file :: rest =>
      d <- download_one total file downloaded ;;
      for_files total rest d
  end.

Definition downloadFiles (files : list FileNode) : M unit :=
  let total := length files in
  downloaded <- for_files total files 0 ;;
  emit (LogAllProcessed downloaded total).

(** ** The top level *)

(** Awaiting [fetchAllFiles()] against the scripted endpoint. *)
Definition await_fetchAllFiles (script : list Response) : M (list FileNode) :=
  fun m =>
    let r := fetchAllFiles script in
    (enum_result r, {| disk := disk m; log := log m ++ enum_trace r |}).

(** The async arrow function of lines 188-199. *)
Definition main (script : list Response) : M unit :=
  try_catch
    (emit LogFetchingAll ;;;
     files <- await_fetchAllFiles script ;;
     emit (LogFound (length files)) ;;;
     downloadFiles files ;;;
     emit (LogDone OUTPUT_DIR))
    (fun err => emit (ErrTopLevel (message err))).

Definition subdirs : list string :=
  ["generic"; "images"; "videos"; "models"; "external"; "unknown"].

(** Lines 17-20. *)
Fixpoint make_subdirs (dirs : list string) : M unit :=
  match dirs with
  | [] => ret tt
  | dir :: rest =>
      let full := path_join [OUTPUT_DIR; dir] in
      present <- existsSync full ;;
      (if present then ret tt else mkdirSync w full) ;;;
      make_subdirs rest
  end.

End Pipeline.

(** [process.env]; an unset variable is [None]. *)
Record ProcessEnv := {
  SHOPIFY_STORE : option string;
  ACCESS_TOKEN : option string;
  env_OUTPUT_DIR : option string
}.

(** [process.env.OUTPUT_DIR || "./shopify_files"] *)
Definition output_dir (env : ProcessEnv) : string :=
  default "./shopify_files" (truthy_url (env_OUTPUT_DIR env)).

(** The whole module, top to bottom. *)
Definition program (path_join : list string -> string) (w : World)
    (env : ProcessEnv) (script : list Response) : M unit :=
  match truthy_url (SHOPIFY_STORE env), truthy_url (ACCESS_TOKEN env) with
  | Some _, Some _ =>
      make_subdirs path_join (output_dir env) w subdirs ;;;
      main path_join (output_dir env) w script
  | _, _ =>
      emit ErrMissingConfig ;;;
      process_exit 1
  end.

(** ** The file name as the specification words it *)

(** The substring of [s] before the first occurrence of [c] (all of [s] when
    [c] does not occur). *)
Fixpoint before_first (c : ascii) (s : string) : string :=
  match s with
  | EmptyString => EmptyString
  | String a rest =>
      if Ascii.eqb a c then EmptyString else String a (before_first c rest)
  end.

(** The substring of [s] after the final path separator: [cand] is the
    substring after the last separator seen so far. *)
Fixpoint after_final_from (cand s : string) : string :=
  match s with
  | EmptyString => cand
  | String a rest =>
      if Ascii.eqb a Path.sep then after_final_from rest rest
      else after_final_from cand rest
  end.

Definition after_final_sep (s : string) : string := after_final_from s s.

(** "the substring after the final path separator, before the first [?]" *)
Definition spec_fileName (u : string) : string :=
  after_final_sep (before_first "?"%char u).

(** [s] without its trailing path separators. *)
Definition strip_trailing_seps (s : string) : string :=
  Path.of_chars (reverse (Path.drop_seps (reverse (Path.chars s)))).

(** [s] ends with a path separator. *)
Definition ends_with_sep (s : string) : Prop :=
  last (Path.chars s) = Some Path.sep.

(** A record of kind [t] with no field set. *)
Definition blank_node (t : string) : FileNode :=
  {| typename := t; createdAt := None; id := None; alt := None; url := None;
     fileStatus := None; image := None; originalSource := None;
     embeddedUrl := None |}.

(** The kinds that [resolveFileInfo] recognises. *)
Definition known_kinds : list string :=
  ["GenericFile"; "MediaImage"; "Video"; "ExternalVideo"; "Model3d"].

(** ** Vocabulary for statements about the enumerator *)

(** [edges || []] of a page, and the nodes it contributes. *)
Definition page_edges (p : FilesPage) : list Edge := default [] (edges p).
Definition page_nodes (p : FilesPage) : list FileNode := node <$> page_edges p.

(** The cursor attached to the last edge of a page, if it has an edge. *)
Definition last_edge_cursor (p : FilesPage) : option string :=
  cursor <$> last (page_edges p).

(** A page that announces a next page and holds at least one edge. *)
Definition continues (p : FilesPage) : Prop :=
  hasNextPage p = true /\ page_edges p <> [].

(** A page that announces a next page holds at least one edge. *)
Definition edge_when_more (p : FilesPage) : Prop :=
  hasNextPage p = true -> page_edges p <> [].

(** The [cursor] variables of the requests in a trace, in order. *)
Definition sent_cursors (evs : list Event) : list (option string) :=
  omap (fun e => match e with GraphQLRequest c => Some c | _ => None end) evs.

(** ** Vocabulary for statements about the pipeline *)

(** Counting the events of a kind. *)
Definition count (kind : Event -> bool) (evs : list Event) : nat :=
  length (List.filter kind evs).

(** The progress lines: a record counted as satisfied. *)
Definition is_progress (e : Event) : bool :=
  match e with
  | OutSkipped _ _ _ _ | OutSaved _ _ _ _ => true
  | _ => false
  end.

(** The per-item diagnostics of a failure: no URL, refused or failed fetch,
    failed write. *)
Definition is_diagnostic (e : Event) : bool :=
  match e with
  | WarnNoUrl _ _ | ErrFailed _ _ | ErrDownloading _ _ => true
  | _ => false
  end.

(** The diagnostics of a failed content fetch or write. *)
Definition is_failure (e : Event) : bool :=
  match e with
  | ErrFailed _ _ | ErrDownloading _ _ => true
  | _ => false
  end.

(** The line that closes the handling of one record. *)
Definition is_item_outcome (e : Event) : bool := is_progress e || is_diagnostic e.

Definition is_content_request (e : Event) : bool :=
  match e with
  | ContentRequest _ => true
  | _ => false
  end.

Definition is_write (e : Event) : bool :=
  match e with
  | FileWritten _ _ => true
  | _ => false
  end.

(** A progress line shows a counter between 1 and [total], and [total]. *)
Definition progress_within (total : nat) (e : Event) : Prop :=
  match e with
  | OutSkipped d t _ _ | OutSaved d t _ _ => t = total /\ 1 <= d <= total
  | _ => True
  end.

Section PipelineVocabulary.

Variable path_join : list string -> string.
Variable OUTPUT_DIR : string.
Variable w : World.

(** The content of [url] can be fetched and written to [target] on the disk
    [dk]: the server answers with success, the body arrives, and the write is
    not refused. *)
Definition fetched_and_written (dk : gmap string Entry) (url target : string) : bool :=
  match http_get w url with
  | Responded res =>
      ok res &&
      match body res with
      | BodyBytes _ =>
          match write_failure w dk target with
          | None => true
          | Some _ => false
          end
      | BodyFails _ => false
      end
  | Rejected _ => false
  end.

(** A record is satisfied on the disk [dk]: it has a URL, and its target is
    already present or is fetched and written. *)
Definition satisfied (dk : gmap string Entry) (file : FileNode) : bool :=
  let info := resolveFileInfo file in
  match truthy_url (info_url info) with
  | None => false
  | Some url =>
      let target := filePath path_join OUTPUT_DIR (folder info) url in
      bool_decide (is_Some (dk !! target)) || fetched_and_written dk url target
  end.

(** What the handling of one record comes to, case by case: the new counter,
    the new disk and the events, in order. *)
Definition item_effect (total : nat) (file : FileNode) (downloaded : nat)
    (dk : gmap string Entry) : nat * gmap string Entry * list Event :=
  let info := resolveFileInfo file in
  match truthy_url (info_url info) with
  | None => (downloaded, dk, [WarnNoUrl (id file) (typename file)])
  | Some url =>
      let name := fileName url in
      let target := filePath path_join OUTPUT_DIR (folder info) url in
      if bool_decide (is_Some (dk !! target)) then
        (S downloaded, dk, [OutSkipped (S downloaded) total (folder info) name])
      else
        match http_get w url with
        | Rejected msg =>
            (downloaded, dk, [ContentRequest url; ErrDownloading url msg])
        | Responded res =>
            if negb (ok res) then
              (downloaded, dk, [ContentRequest url; ErrFailed name (statusText res)])
            else
              match body res with
              | BodyFails msg =>
                  (downloaded, dk, [ContentRequest url; ErrDownloading url msg])
              | BodyBytes data =>
                  match write_failure w dk target with
                  | Some msg =>
                      (downloaded, dk, [ContentRequest url; ErrDownloading url msg])
                  | None =>
                      (S downloaded, <[target := File data]> dk,
                       [ContentRequest url; FileWritten target data;
                        OutSaved (S downloaded) total (folder info) name])
                  end
              end
        end
  end.

(** The same for a sequence of records, in order. *)
Fixpoint run_effect (total : nat) (files : list FileNode) (downloaded : nat)
    (dk : gmap string Entry) : nat * gmap string Entry * list Event :=
  match files with
  | [] => (downloaded, dk, [])
  | file :: rest =>
      let '(d1, dk1, evs1) := item_effect total file downloaded dk in
      let '(d2, dk2, evs2) := run_effect total rest d1 dk1 in
      (d2, dk2, evs1 ++ evs2)
  end.

(** The target path of a record that has a URL. *)
Definition target_of (file : FileNode) : option string :=
  let info := resolveFileInfo file in
  filePath path_join OUTPUT_DIR (folder info) <$> truthy_url (info_url info).

(** The number of records that have a URL. *)
Definition with_url (files : list FileNode) : nat :=
  length (omap target_of files).

End PipelineVocabulary.

(** ** Sample data for the examples *)

Definition generic_a : FileNode :=
  {| typename := "GenericFile"; createdAt := None; id := Some "gid://shopify/GenericFile/1";
     alt := None; url := Some "https://cdn.example.com/files/a.zip";
     fileStatus := Some "READY"; image := None; originalSource := None;
     embeddedUrl := None |}.

Definition image_without_image : FileNode :=
  {| typename := "MediaImage"; createdAt := None; id := Some "gid://shopify/MediaImage/2";
     alt := None; url := None; fileStatus := None; image := None;
     originalSource := None; embeddedUrl := None |}.

Definition external_y : FileNode :=
  {| typename := "ExternalVideo"; createdAt := None; id := Some "gid://shopify/ExternalVideo/3";
     alt := None; url := None; fileStatus := None; image := None;
     originalSource := None; embeddedUrl := Some "https://x/y.mp4" |}.

Definition page_one : FilesPage :=
  {| edges := Some [ {| cursor := "c1"; node := generic_a |};
                     {| cursor := "c2"; node := image_without_image |} ];
     hasNextPage := true |}.

Definition page_two : FilesPage :=
  {| edges := Some [ {| cursor := "c3"; node := external_y |} ];
     hasNextPage := false |}.

(** A page that announces a next page but holds no edge. *)
Definition page_empty_more : FilesPage :=
  {| edges := Some []; hasNextPage := true |}.

Definition page_null_more : FilesPage :=
  {| edges := None; hasNextPage := true |}.

(** [path.join] on segments that need no normalisation. *)
Definition join_slash (segments : list string) : string :=
  String.concat "/" segments.

Definition bytes_abc : Buffer := [x61; x62; x63]%byte.

(** A server that answers every request with the same body. *)
Definition world_ok : World :=
  {| http_get := fun _ =>
       Responded {| ok := true; statusText := "OK"; body := BodyBytes bytes_abc |};
     write_failure := fun _ _ => None;
     mkdir_failure := fun _ _ => None |}.

(** A server that answers every request with status 500. *)
Definition world_500 : World :=
  {| http_get := fun _ =>
       Responded {| ok := false; statusText := "Internal Server Error";
                    body := BodyBytes [] |};
     write_failure := fun _ _ => None;
     mkdir_failure := fun _ _ => None |}.

Definition env_ok : ProcessEnv :=
  {| SHOPIFY_STORE := Some "demo"; ACCESS_TOKEN := Some "shpat_x";
     env_OUTPUT_DIR := Some "out" |}.

Definition fresh_machine : Machine := {| disk := ∅; log := [] |}.

(** ** Vocabulary for further statements *)

(** The page numbers printed by line 30, in order. *)
Definition logged_pages (evs : list Event) : list nat :=
  omap (fun e => match e with LogFetchingPage n => Some n | _ => None end) evs.

(** The paths written by [fs.writeFileSync], in order. *)
Definition written_paths (evs : list Event) : list string :=
  omap (fun e => match e with FileWritten p _ => Some p | _ => None end) evs.

Definition is_no_url (e : Event) : bool :=
  match e with
  | WarnNoUrl _ _ => true
  | _ => false
  end.

Definition is_skipped (e : Event) : bool :=
  match e with
  | OutSkipped _ _ _ _ => true
  | _ => false
  end.

Definition is_saved (e : Event) : bool :=
  match e with
  | OutSaved _ _ _ _ => true
  | _ => false
  end.

(** The folders of the five kinds that [resolveFileInfo] recognises. *)
Definition known_folders : list string :=
  ["generic"; "images"; "videos"; "external"; "models"].

(** A world in which every content request succeeds with a body and no
    write is refused. *)
Definition healthy (w : World) : Prop :=
  (forall url, exists res data,
     http_get w url = Responded res /\ ok res = true /\ body res = BodyBytes data)
  /\ (forall dk p, write_failure w dk p = None).

(** Both required variables of the configuration are set and not empty. *)
Definition configured (env : ProcessEnv) : Prop :=
  is_Some (truthy_url (SHOPIFY_STORE env)) /\ is_Some (truthy_url (ACCESS_TOKEN env)).

(** The number of records of [files] whose target path exists on [dk]. *)
Definition present_count (path_join : list string -> string) (OUTPUT_DIR : string)
    (dk : gmap string Entry) (files : list FileNode) : nat :=
  length (List.filter
            (fun file => match target_of path_join OUTPUT_DIR file with
                         | Some t => bool_decide (is_Some (dk !! t))
                         | None => false
                         end) files).

(** The counters shown by the progress lines, in order. *)
Definition progress_values (evs : list Event) : list nat :=
  omap (fun e => match e with
                 | OutSkipped d _ _ _ | OutSaved d _ _ _ => Some d
                 | _ => None
                 end) evs.

(** The URLs of the content requests, in order. *)
Definition requested_urls (evs : list Event) : list string :=
  omap (fun e => match e with ContentRequest u => Some u | _ => None end) evs.

(** The URL that a record resolves to, when it is truthy. *)
Definition url_of (file : FileNode) : option string :=
  truthy_url (info_url (resolveFileInfo file)).

(** The events of one record, handled in one of three ways: reported as
    having no URL; skipped as already present; or requested once, the request
    ending in a failure diagnostic or in a write followed by its progress
    line. *)
Definition handled (path_join : list string -> string) (OUTPUT_DIR : string)
    (total : nat) (file : FileNode) (block : list Event) : Prop :=
  match url_of file with
  | None => block = [WarnNoUrl (id file) (typename file)]
  | Some url =>
      let dir := folder (resolveFileInfo file) in
      let name := fileName url in
      (exists d, block = [OutSkipped d total dir name])
      \/ (exists statusText, block = [ContentRequest url; ErrFailed name statusText])
      \/ (exists msg, block = [ContentRequest url; ErrDownloading url msg])
      \/ (exists data d,
            block = [ContentRequest url;
                     FileWritten (filePath path_join OUTPUT_DIR dir url) data;
                     OutSaved d total dir name])
  end.

(** A file system that refuses every directory creation. *)
Definition world_readonly : World :=
  {| http_get := fun _ => Rejected "unreachable";
     write_failure := fun _ _ => Some "EROFS: read-only file system";
     mkdir_failure := fun _ _ => Some "EROFS: read-only file system" |}.

(** * Properties *)

(** ** Classification *)

Lemma eqb_of_neq (a b : string) : a <> b -> String.eqb a b = false.
Proof. intros H. by apply String.eqb_neq. Qed.

(** C3: [resolveFileInfo] is a total function that sends each of the five
    declared kinds, under the names the endpoint delivers (GenericFile,
    MediaImage, Video, ExternalVideo, Model3d), to its documented folder
    (generic, images, videos, external, models) and to its URL-bearing field,
    and every other kind value to folder unknown with no URL. *)
Theorem resolveFileInfo_classifies (file : FileNode) :
  (typename file = "GenericFile" ->
     resolveFileInfo file = {| info_url := url file; folder := "generic" |}) /\
  (typename file = "MediaImage" ->
     resolveFileInfo file =
       {| info_url := opt_url (image file); folder := "images" |}) /\
  (typename file = "Video" ->
     resolveFileInfo file =
       {| info_url := opt_url (originalSource file); folder := "videos" |}) /\
  (typename file = "ExternalVideo" ->
     resolveFileInfo file =
       {| info_url := embeddedUrl file; folder := "external" |}) /\
  (typename file = "Model3d" ->
     resolveFileInfo file =
       {| info_url := opt_url (originalSource file); folder := "models" |}) /\
  (typename file ∉ known_kinds ->
     resolveFileInfo file = {| info_url := None; folder := "unknown" |}).
Proof.
  unfold resolveFileInfo.
  repeat split; try (intros ->; reflexivity).
  intros Hnot. unfold known_kinds in Hnot.
  rewrite !not_elem_of_cons in Hnot.
  destruct Hnot as (H1 & H2 & H3 & H4 & H5 & _).
  by rewrite !eqb_of_neq.
Qed.

Lemma resolveFileInfo_classifies_witness :
  let file := {| typename := "Model3d"; createdAt := None; id := Some "gid://1";
                 alt := None; url := None; fileStatus := None; image := None;
                 originalSource := Some {| holder_url := Some "https://x/m.glb" |};
                 embeddedUrl := None |} in
  resolveFileInfo file = {| info_url := Some "https://x/m.glb"; folder := "models" |}
  /\ resolveFileInfo (blank_node "Folder") = {| info_url := None; folder := "unknown" |}.
Proof.
  intros file. split.
  - exact (proj1 (proj2 (proj2 (proj2 (proj2 (resolveFileInfo_classifies file)))))
             eq_refl).
  - apply (proj2 (proj2 (proj2 (proj2 (proj2
             (resolveFileInfo_classifies (blank_node "Folder"))))))).
    unfold known_kinds. simpl. rewrite !not_elem_of_cons. repeat split; try discriminate.
    apply not_elem_of_nil.
Defined.


(** ** File names *)

Lemma split_nonempty (sep : ascii) (s : string) : Js.split sep s <> [].
Proof. destruct s as [|c s]; simpl; [done|]. by repeat case_match. Qed.

Lemma cleanUrl_before_first (u : string) : cleanUrl u = before_first "?"%char u.
Proof.
  unfold cleanUrl, Js.first. induction u as [|c u IH]; simpl; [done|].
  destruct (Ascii.eqb c "?"); [done|].
  destruct (Js.split "?" u) as [|piece pieces] eqn:E.
  - by apply split_nonempty in E.
  - simpl in *. by rewrite IH.
Qed.

Lemma chars_of_chars (l : list ascii) : Path.chars (Path.of_chars l) = l.
Proof. apply list_ascii_of_string_of_list_ascii. Qed.

Lemma of_chars_chars (s : string) : Path.of_chars (Path.chars s) = s.
Proof. apply string_of_list_ascii_of_string. Qed.

Lemma take_segment_app (l1 l2 : list ascii) :
  Path.take_segment (l1 ++ l2) =
    if decide (Path.sep ∈ l1) then Path.take_segment l1
    else l1 ++ Path.take_segment l2.
Proof.
  induction l1 as [|c l1 IH]; simpl.
  - destruct (decide (Path.sep ∈ [])) as [H|H]; [by apply elem_of_nil in H | done].
  - destruct (Ascii.eqb c Path.sep) eqn:E.
    + apply Ascii.eqb_eq in E. subst c. rewrite decide_True; [done | left].
    + apply Ascii.eqb_neq in E. rewrite IH.
      destruct (decide (Path.sep ∈ l1)) as [Hin|Hnot].
      * rewrite decide_True; [done | by right].
      * rewrite decide_False; [done|]. rewrite elem_of_cons. intros [?|?]; congruence.
Qed.

(** The last segment of a list of characters. *)
Lemma last_segment_cons (c : ascii) (l : list ascii) :
  reverse (Path.take_segment (reverse (c :: l))) =
    if decide (Path.sep ∈ l) then reverse (Path.take_segment (reverse l))
    else if Ascii.eqb c Path.sep then l else c :: l.
Proof.
  rewrite reverse_cons, take_segment_app.
  destruct (decide (Path.sep ∈ l)) as [Hin|Hnot].
  - rewrite decide_True; [done | by apply elem_of_reverse].
  - rewrite decide_False by (by rewrite elem_of_reverse).
    simpl. destruct (Ascii.eqb c Path.sep).
    + by rewrite app_nil_r, reverse_involutive.
    + by rewrite reverse_app, reverse_involutive.
Qed.

Lemma after_final_from_chars (s cand : string) :
  Path.chars (after_final_from cand s) =
    if decide (Path.sep ∈ Path.chars s)
    then reverse (Path.take_segment (reverse (Path.chars s)))
    else Path.chars cand.
Proof.
  revert cand. induction s as [|c s IH]; intros cand; cbn [after_final_from].
  - change (Path.chars EmptyString) with (@nil ascii).
    rewrite decide_False; [done | apply not_elem_of_nil].
  - change (Path.chars (String c s)) with (c :: Path.chars s).
    rewrite last_segment_cons.
    destruct (Ascii.eqb c Path.sep) eqn:E.
    + apply Ascii.eqb_eq in E. subst c. rewrite IH.
      rewrite (decide_True (P := Path.sep ∈ Path.sep :: Path.chars s)) by left.
      done.
    + apply Ascii.eqb_neq in E. rewrite IH.
      destruct (decide (Path.sep ∈ Path.chars s)) as [Hin|Hnot].
      * rewrite decide_True; [done | by right].
      * rewrite decide_False; [done|]. rewrite elem_of_cons. intros [?|?]; congruence.
Qed.

Lemma take_segment_id (l : list ascii) :
  Path.sep ∉ l -> Path.take_segment l = l.
Proof.
  induction l as [|c l IH]; simpl; [done|].
  rewrite not_elem_of_cons. intros [Hc Hl].
  apply not_eq_sym, Ascii.eqb_neq in Hc. rewrite Hc. by rewrite IH.
Qed.

Lemma after_final_sep_chars (s : string) :
  after_final_sep s =
    Path.of_chars (reverse (Path.take_segment (reverse (Path.chars s)))).
Proof.
  rewrite <- (of_chars_chars (after_final_sep s)). f_equal.
  unfold after_final_sep. rewrite after_final_from_chars.
  destruct (decide (Path.sep ∈ Path.chars s)) as [H|H]; [done|].
  rewrite take_segment_id by (by rewrite elem_of_reverse).
  by rewrite reverse_involutive.
Qed.

Lemma drop_seps_id (l : list ascii) :
  head l <> Some Path.sep -> Path.drop_seps l = l.
Proof.
  destruct l as [|c l]; simpl; [done|]. intros H.
  destruct (Ascii.eqb c Path.sep) eqn:E; [|done].
  apply Ascii.eqb_eq in E. by subst c.
Qed.

(** C9, as amended: the file name of a URL is the final path segment of the
    part before the first [?], where trailing path separators are ignored
    (as [path.basename] does); when that part does not end with a separator
    this is the substring after the final separator, before the first [?];
    and the URL of the example yields image.png. *)
Theorem fileName_canonical :
  (forall u : string,
     fileName u = after_final_sep (strip_trailing_seps (before_first "?"%char u))) /\
  (forall u : string,
     ~ ends_with_sep (before_first "?"%char u) -> fileName u = spec_fileName u) /\
  fileName "https://cdn.example.com/path/image.png?v=123" = "image.png".
Proof.
  assert (Hgen : forall u : string,
    fileName u = after_final_sep (strip_trailing_seps (before_first "?"%char u))).
  { intros u. unfold fileName, Path.basename, strip_trailing_seps.
    rewrite after_final_sep_chars, chars_of_chars, reverse_involutive.
    by rewrite cleanUrl_before_first. }
  split; [exact Hgen|]. split; [|reflexivity].
  intros u Hend. rewrite Hgen. unfold spec_fileName, strip_trailing_seps.
  unfold ends_with_sep in Hend. rewrite <- head_reverse in Hend.
  by rewrite drop_seps_id, reverse_involutive, of_chars_chars.
Qed.

Lemma fileName_canonical_witness :
  ~ ends_with_sep (before_first "?"%char "https://x/y.mp4")
  /\ fileName "https://x/y.mp4" = spec_fileName "https://x/y.mp4".
Proof.
  split.
  - unfold ends_with_sep. simpl. discriminate.
  - apply (proj1 (proj2 fileName_canonical)).
    unfold ends_with_sep. simpl. discriminate.
Defined.

(** C9, as stated, fails when the part before the first [?] ends with a path
    separator: [path.basename] ignores the trailing separator and returns the
    segment before it, while the substring after the final separator is
    empty. *)
Lemma fileName_trailing_separator :
  fileName "https://cdn.example.com/path/?v=123" = "path"
  /\ spec_fileName "https://cdn.example.com/path/?v=123" = ""
  /\ fileName "https://cdn.example.com/path/?v=123"
       <> spec_fileName "https://cdn.example.com/path/?v=123".
Proof. repeat split. discriminate. Qed.

(** ** The enumerator *)

Arguments fetch_page : simpl never.

Lemma next_cursor_more (es : list Edge) (e : Edge) :
  last es = Some e -> next_cursor true es = Normal (Some (cursor e)).
Proof. intros H. unfold next_cursor. by rewrite H. Qed.

Lemma fetch_page_continues (st : EnumState) (p : FilesPage) :
  continues p ->
  exists e, last (page_edges p) = Some e /\
    fetch_page st (FilesData p) =
      ([LogFetchingPage (st_page st); GraphQLRequest (st_cursor st)],
       Normal {| st_allFiles := st_allFiles st ++ page_nodes p;
                 st_hasNextPage := true;
                 st_cursor := Some (cursor e);
                 st_page := S (st_page st) |}).
Proof.
  intros [Hmore Hne].
  destruct (last (page_edges p)) as [e|] eqn:El.
  - exists e. split; [done|]. unfold fetch_page. fold (page_edges p).
    rewrite Hmore. rewrite (next_cursor_more _ e El). done.
  - by apply last_None in El.
Qed.

Lemma fetch_page_final (st : EnumState) (p : FilesPage) :
  hasNextPage p = false ->
  fetch_page st (FilesData p) =
    ([LogFetchingPage (st_page st); GraphQLRequest (st_cursor st)],
     Normal {| st_allFiles := st_allFiles st ++ page_nodes p;
               st_hasNextPage := false;
               st_cursor := None;
               st_page := S (st_page st) |}).
Proof. intros H. unfold fetch_page. by rewrite H. Qed.

Lemma fetch_loop_stopped (script : list Response) (st : EnumState) :
  st_hasNextPage st = false ->
  fetch_loop script st =
    {| enum_result := Normal (st_allFiles st); enum_trace := [];
       enum_unread := script |}.
Proof. intros H. destruct script; simpl; by rewrite H. Qed.

(** While pages continue, the loop keeps asking: on a script of continuing
    pages alone it is left waiting for the next response. *)
Lemma fetch_loop_waits (ps : list FilesPage) (st : EnumState) :
  st_hasNextPage st = true ->
  Forall continues ps ->
  enum_result (fetch_loop ((FilesData <$> ps)) st) = Pending.
Proof.
  intros Hst Hps. revert st Hst.
  induction Hps as [|p ps Hp Hps IH]; intros st Hst; csimpl; rewrite Hst; [done|].
  destruct (fetch_page_continues st p Hp) as (e & _ & ->).
  csimpl. by apply IH.
Qed.

(** The run on continuing pages followed by a final page. *)
Lemma fetch_loop_pages (ps : list FilesPage) (final : FilesPage) (st : EnumState) :
  st_hasNextPage st = true ->
  Forall continues ps ->
  hasNextPage final = false ->
  let r := fetch_loop ((FilesData <$> ps ++ [final])) st in
  enum_result r = Normal (st_allFiles st ++ concat (page_nodes <$> ps ++ [final]))
  /\ enum_unread r = []
  /\ sent_cursors (enum_trace r) = st_cursor st :: (last_edge_cursor <$> ps).
Proof.
  intros Hst Hps Hfinal. revert st Hst.
  induction Hps as [|p ps Hp Hps IH]; intros st Hst; csimpl; rewrite Hst.
  - rewrite (fetch_page_final st final Hfinal). csimpl.
    by rewrite app_nil_r.
  - destruct (fetch_page_continues st p Hp) as (e & El & ->).
    specialize (IH {| st_allFiles := st_allFiles st ++ page_nodes p;
                      st_hasNextPage := true; st_cursor := Some (cursor e);
                      st_page := S (st_page st) |} eq_refl).
    csimpl in IH. destruct IH as (IH1 & IH2 & IH3).
    csimpl. rewrite IH1, IH2, IH3. unfold last_edge_cursor. rewrite El. csimpl.
    by rewrite <- app_assoc.
Qed.

(** C1, as amended: for every scripted sequence of pages in which every page
    before the last reports hasNextPage = true and holds at least one edge,
    and the last page reports hasNextPage = false, [fetchAllFiles] consumes
    the whole script, one request per page, and returns the nodes of all
    pages' edges concatenated in page order; on every proper prefix of the
    script it has not terminated but awaits the next page. *)
Theorem fetchAllFiles_scripted_pages (ps : list FilesPage) (final : FilesPage) :
  Forall continues ps ->
  hasNextPage final = false ->
  let script := (FilesData <$> ps ++ [final]) in
  enum_result (fetchAllFiles script) = Normal (concat (page_nodes <$> ps ++ [final]))
  /\ enum_unread (fetchAllFiles script) = []
  /\ length (sent_cursors (enum_trace (fetchAllFiles script))) = length script
  /\ (forall k, k < length script ->
        enum_result (fetchAllFiles (take k script)) = Pending).
Proof.
  intros Hps Hfinal script.
  destruct (fetch_loop_pages ps final enum_init eq_refl Hps Hfinal) as (H1 & H2 & H3).
  repeat split; [exact H1 | exact H2 | |].
  - unfold fetchAllFiles, script. rewrite H3. csimpl.
    rewrite !length_fmap, length_app. csimpl. lia.
  - intros k Hk. unfold script in *. rewrite length_fmap, length_app in Hk.
    csimpl in Hk. rewrite <- fmap_take, take_app_le by lia.
    apply fetch_loop_waits; [done|]. by apply Forall_take.
Qed.

Lemma fetchAllFiles_scripted_pages_witness :
  Forall continues [page_one] /\ hasNextPage page_two = false
  /\ enum_result (fetchAllFiles [FilesData page_one; FilesData page_two]) =
       Normal [generic_a; image_without_image; external_y].
Proof.
  assert (H1 : Forall continues [page_one]).
  { constructor; [|constructor]. split; [reflexivity | discriminate]. }
  split; [exact H1|]. split; [reflexivity|].
  exact (proj1 (fetchAllFiles_scripted_pages [page_one] page_two H1 eq_refl)).
Defined.

(** C1, as stated, fails on a script whose last page reports
    hasNextPage = false but whose first page reports hasNextPage = true with
    no edge: reading the cursor of the last edge throws, and nothing is
    returned. *)
Lemma fetchAllFiles_empty_page_throws :
  let pages := [page_empty_more; page_two] in
  last (hasNextPage <$> pages) = Some false
  /\ enum_result (fetchAllFiles (FilesData <$> pages)) =
       Throw (TypeError "Cannot read properties of undefined (reading 'cursor')")
  /\ enum_result (fetchAllFiles (FilesData <$> pages)) <>
       Normal (concat (page_nodes <$> pages)).
Proof. repeat split. discriminate. Qed.

Lemma fetch_page_sent (st : EnumState) (r : Response) :
  exists more, fst (fetch_page st r) =
    LogFetchingPage (st_page st) :: GraphQLRequest (st_cursor st) :: more.
Proof.
  unfold fetch_page. destruct r; try (by exists []).
  - by eexists.
  - destruct (next_cursor _ _); by exists [].
Qed.

Lemma fetch_loop_first_request (r : Response) (rest : list Response) (st : EnumState) :
  st_hasNextPage st = true ->
  head (sent_cursors (enum_trace (fetch_loop (r :: rest) st))) = Some (st_cursor st).
Proof.
  intros Hst. cbn [fetch_loop]. rewrite Hst.
  destruct (fetch_page_sent st r) as [more Hsent].
  destruct (fetch_page st r) as [evs c]. cbn [fst] in Hsent. subst evs.
  by destruct c.
Qed.

(** C4: after a page that reports hasNextPage = true the cursor variable is
    the cursor of the last edge of that page, and the next request is sent
    with it; after a page that reports hasNextPage = false the cursor is null
    and the loop stops without a further request.  Over a whole script the
    cursors sent are null, then the last-edge cursor of each page in turn. *)
Theorem cursor_per_edge :
  (forall (st : EnumState) (p : FilesPage) (e : Edge),
     hasNextPage p = true ->
     last (page_edges p) = Some e ->
     exists st',
       snd (fetch_page st (FilesData p)) = Normal st'
       /\ st_cursor st' = Some (cursor e)
       /\ st_hasNextPage st' = true
       /\ forall r rest,
            head (sent_cursors (enum_trace (fetch_loop (r :: rest) st')))
              = Some (Some (cursor e))) /\
  (forall (st : EnumState) (p : FilesPage),
     hasNextPage p = false ->
     exists st',
       snd (fetch_page st (FilesData p)) = Normal st'
       /\ st_cursor st' = None
       /\ st_hasNextPage st' = false
       /\ forall script,
            fetch_loop script st' =
              {| enum_result := Normal (st_allFiles st'); enum_trace := [];
                 enum_unread := script |}) /\
  (forall (ps : list FilesPage) (final : FilesPage),
     Forall continues ps ->
     hasNextPage final = false ->
     sent_cursors (enum_trace (fetchAllFiles (FilesData <$> ps ++ [final])))
       = None :: (last_edge_cursor <$> ps)).
Proof.
  split; [|split].
  - intros st p e Hmore El.
    assert (Hp : continues p).
    { split; [done|]. intros Hnil. by rewrite Hnil in El. }
    destruct (fetch_page_continues st p Hp) as (e' & El' & Hpage).
    rewrite El in El'. injection El' as <-.
    eexists. rewrite Hpage. split; [reflexivity|]. split; [reflexivity|].
    split; [reflexivity|]. intros r rest.
    by rewrite fetch_loop_first_request.
  - intros st p Hfinal. eexists. rewrite (fetch_page_final st p Hfinal).
    split; [reflexivity|]. split; [reflexivity|]. split; [reflexivity|].
    intros script. by apply fetch_loop_stopped.
  - intros ps final Hps Hfinal.
    destruct (fetch_loop_pages ps final enum_init eq_refl Hps Hfinal) as (_ & _ & H).
    exact H.
Qed.

Lemma cursor_per_edge_witness :
  hasNextPage page_one = true
  /\ last (page_edges page_one) = Some {| cursor := "c2"; node := image_without_image |}
  /\ sent_cursors (enum_trace (fetchAllFiles (FilesData <$> [page_one] ++ [page_two])))
       = [None; Some "c2"].
Proof.
  split; [reflexivity|]. split; [reflexivity|].
  apply (proj2 (proj2 cursor_per_edge) [page_one] page_two).
  - constructor; [|constructor]. split; [reflexivity | discriminate].
  - reflexivity.
Defined.

Lemma next_cursor_safe (p : FilesPage) :
  edge_when_more p ->
  exists c, next_cursor (hasNextPage p) (page_edges p) = Normal c.
Proof.
  unfold edge_when_more, next_cursor. intros H.
  destruct (hasNextPage p); [|by eexists].
  destruct (last (page_edges p)) eqn:El; [by eexists|].
  apply last_None in El. by destruct H.
Qed.

Lemma fetch_page_safe (st : EnumState) (p : FilesPage) :
  edge_when_more p ->
  exists st', snd (fetch_page st (FilesData p)) = Normal st'.
Proof.
  intros H. destruct (next_cursor_safe p H) as [c Hc].
  unfold fetch_page. fold (page_edges p). rewrite Hc. by eexists.
Qed.

Lemma fetch_loop_safe (ps : list FilesPage) (st : EnumState) (e : JsError) :
  Forall edge_when_more ps ->
  enum_result (fetch_loop (FilesData <$> ps) st) <> Throw e.
Proof.
  intros Hps. revert st.
  induction Hps as [|p ps Hp Hps IH]; intros st; csimpl.
  - by destruct (st_hasNextPage st).
  - destruct (st_hasNextPage st); [|done].
    destruct (fetch_page_safe st p Hp) as [st' Hst'].
    destruct (fetch_page st (FilesData p)) as [evs c]. cbn [snd] in Hst'.
    subst c. apply IH.
Qed.

(** C10: the cursor of the last edge is read only when the page reports
    hasNextPage = true; if every page that reports hasNextPage = true holds at
    least one edge, the read succeeds on every page and [fetchAllFiles] does
    not throw on any script of such pages; and on a page that reports
    hasNextPage = true with an empty or absent edge list [fetchAllFiles]
    throws instead of returning. *)
Theorem last_edge_access_precondition :
  (forall es : list Edge, next_cursor false es = Normal None) /\
  (forall p : FilesPage,
     edge_when_more p ->
     exists c, next_cursor (hasNextPage p) (page_edges p) = Normal c) /\
  (forall (ps : list FilesPage) (e : JsError),
     Forall edge_when_more ps ->
     enum_result (fetchAllFiles (FilesData <$> ps)) <> Throw e) /\
  (forall (p : FilesPage) (rest : list Response),
     hasNextPage p = true ->
     page_edges p = [] ->
     enum_result (fetchAllFiles (FilesData p :: rest)) =
       Throw (TypeError "Cannot read properties of undefined (reading 'cursor')")) /\
  (exists p : FilesPage, hasNextPage p = true /\ edges p = Some []) /\
  (exists p : FilesPage, hasNextPage p = true /\ edges p = None).
Proof.
  split; [done|]. split; [exact next_cursor_safe|].
  split; [intros ps e Hps; by apply fetch_loop_safe|].
  split; [|split; [by exists page_empty_more | by exists page_null_more]].
  intros p rest Hmore Hnil. unfold fetchAllFiles. cbn [fetch_loop enum_init st_hasNextPage].
  unfold fetch_page. fold (page_edges p). rewrite Hmore, Hnil. reflexivity.
Qed.

Lemma last_edge_access_precondition_witness :
  Forall edge_when_more [page_one; page_two]
  /\ (forall e, enum_result (fetchAllFiles (FilesData <$> [page_one; page_two])) <> Throw e)
  /\ enum_result (fetchAllFiles [FilesData page_null_more]) =
       Throw (TypeError "Cannot read properties of undefined (reading 'cursor')").
Proof.
  assert (H : Forall edge_when_more [page_one; page_two]).
  { repeat constructor; intros _; discriminate. }
  split; [exact H|]. split.
  - intros e.
    exact (proj1 (proj2 (proj2 last_edge_access_precondition)) _ e H).
  - exact (proj1 (proj2 (proj2 (proj2 last_edge_access_precondition)))
             page_null_more [] eq_refl eq_refl).
Defined.

(** ** Failures of the enumeration at the top level *)

Arguments fetchAllFiles : simpl never.

(** When the enumeration throws, [main] catches the exception, prints its
    message on the error stream and ends normally: the pipeline is not
    started, the disk is untouched, and no exit status is set. *)
Lemma main_enumeration_failure (path_join : list string -> string)
    (OUTPUT_DIR : string) (w : World) (script : list Response) (m : Machine)
    (e : JsError) :
  enum_result (fetchAllFiles script) = Throw e ->
  main path_join OUTPUT_DIR w script m =
    (Normal tt,
     {| disk := disk m;
        log := log m ++ [LogFetchingAll] ++ enum_trace (fetchAllFiles script)
                 ++ [ErrTopLevel (message e)] |}).
Proof.
  intros H. unfold main, try_catch, bind, emit, await_fetchAllFiles. cbn.
  rewrite H. cbn. by rewrite <- !app_assoc.
Qed.

(** The errors that the failing responses raise, after any number of
    continuing pages. *)
Lemma enumeration_failures (ps : list FilesPage) (rest : list Response) :
  Forall continues ps ->
  (forall m, enum_result (fetchAllFiles ((FilesData <$> ps) ++ FetchRejected m :: rest))
     = Throw (Error ("Network error: " +:+ m))) /\
  (forall status text,
     enum_result (fetchAllFiles ((FilesData <$> ps) ++ HttpStatus status text :: rest))
     = Throw (Error ("GraphQL error " +:+ pretty status +:+ ": " +:+ text))) /\
  (forall e, enum_result (fetchAllFiles ((FilesData <$> ps) ++ MalformedBody e :: rest))
     = Throw e) /\
  (forall errors,
     enum_result (fetchAllFiles ((FilesData <$> ps) ++ GraphQLErrors errors :: rest))
     = Throw (Error "Shopify GraphQL query failed")).
Proof.
  intros Hps. unfold fetchAllFiles.
  assert (Hst : st_hasNextPage enum_init = true) by done.
  revert Hst. generalize enum_init.
  induction Hps as [|p ps Hp Hps IH]; intros st Hst.
  - csimpl. rewrite Hst. by repeat split.
  - csimpl. rewrite Hst.
    destruct (fetch_page_continues st p Hp) as (e & _ & ->).
    cbn [enum_after enum_result]. by apply IH.
Qed.

(** C7 at a failing input: with valid configuration and an unreachable
    endpoint, the program prints the error and runs to its end, so the
    process ends with status 0; the missing-configuration path of the same
    program exits with status 1. *)
Theorem program_unreachable_endpoint_status :
  let run := program join_slash world_ok env_ok [FetchRejected "connect ECONNREFUSED"]
               fresh_machine in
  fst run = Normal tt
  /\ exit_status (fst run) = Some 0%Z
  /\ last (log (snd run)) = Some (ErrTopLevel "Network error: connect ECONNREFUSED")
  /\ Forall (fun e => forall u p d, e <> ContentRequest u /\ e <> FileWritten p d)
       (log (snd run))
  /\ exit_status
       (fst (program join_slash world_ok
               {| SHOPIFY_STORE := None; ACCESS_TOKEN := Some "shpat_x";
                  env_OUTPUT_DIR := None |}
               [FetchRejected "connect ECONNREFUSED"] fresh_machine)) = Some 1%Z.
Proof.
  vm_compute. repeat split; repeat constructor; discriminate.
Qed.

(** ** The pipeline, record by record *)

Lemma count_app (kind : Event -> bool) (a b : list Event) :
  count kind (a ++ b) = count kind a + count kind b.
Proof. unfold count. by rewrite List.filter_app, length_app. Qed.

Lemma count_progress_le_outcome (evs : list Event) :
  count is_progress evs <= count is_item_outcome evs.
Proof.
  unfold count, is_item_outcome. induction evs as [|e evs IH]; cbn; [lia|].
  destruct (is_progress e); cbn; [lia|]. destruct (is_diagnostic e); cbn; lia.
Qed.

Section PipelineFacts.

Variable path_join : list string -> string.
Variable OUTPUT_DIR : string.

Local Abbreviation item := (item_effect path_join OUTPUT_DIR).
Local Abbreviation run := (run_effect path_join OUTPUT_DIR).
Local Abbreviation one := (download_one path_join OUTPUT_DIR).
Local Abbreviation loop := (for_files path_join OUTPUT_DIR).
Local Abbreviation pipeline := (downloadFiles path_join OUTPUT_DIR).
Local Abbreviation sat := (satisfied path_join OUTPUT_DIR).
Local Abbreviation target := (target_of path_join OUTPUT_DIR).

(** [download_one] always completes normally, with the effect that
    [item_effect] lists. *)
Lemma download_one_effect (w : World) (total : nat) (file : FileNode) (d : nat)
    (m : Machine) :
  one w total file d m =
    (Normal (item w total file d (disk m)).1.1,
     {| disk := (item w total file d (disk m)).1.2;
        log := log m ++ (item w total file d (disk m)).2 |}).
Proof.
  unfold download_one, item_effect.
  destruct (truthy_url _) as [u|]; [|done].
  unfold bind at 1. unfold existsSync at 1. cbn [disk log].
  destruct (bool_decide _); [done|].
  unfold try_catch, bind, fetch, emit, throw, ret, arrayBuffer, writeFileSync.
  cbn [disk log].
  destruct (http_get w u) as [msg|res]; cbn; [by rewrite <- !app_assoc|].
  destruct (ok res); cbn; [|by rewrite <- !app_assoc].
  destruct (body res) as [data|msg]; cbn; [|by rewrite <- !app_assoc].
  destruct (write_failure w (disk m) _); cbn; by rewrite <- !app_assoc.
Qed.

Lemma for_files_effect (w : World) (total : nat) (files : list FileNode) (d : nat)
    (m : Machine) :
  loop w total files d m =
    (Normal (run w total files d (disk m)).1.1,
     {| disk := (run w total files d (disk m)).1.2;
        log := log m ++ (run w total files d (disk m)).2 |}).
Proof.
  revert d m. induction files as [|file rest IH]; intros d m.
  - cbn. rewrite app_nil_r. by destruct m.
  - cbn [for_files run_effect]. unfold bind.
    rewrite download_one_effect.
    destruct (item w total file d (disk m)) as [[d1 dk1] evs1].
    cbn [fst snd]. rewrite IH. cbn [disk log].
    destruct (run w total rest d1 dk1) as [[d2 dk2] evs2].
    cbn [fst snd]. by rewrite app_assoc.
Qed.

Lemma downloadFiles_effect (w : World) (files : list FileNode) (m : Machine) :
  pipeline w files m =
    (Normal tt,
     {| disk := (run w (length files) files 0 (disk m)).1.2;
        log := log m ++ (run w (length files) files 0 (disk m)).2
                 ++ [LogAllProcessed (run w (length files) files 0 (disk m)).1.1
                       (length files)] |}).
Proof.
  unfold downloadFiles, bind. rewrite for_files_effect.
  unfold emit. cbn [disk log]. by rewrite app_assoc.
Qed.

(** *** One record *)

Ltac item_cases w dk :=
  unfold item_effect, satisfied, fetched_and_written, target_of;
  destruct (truthy_url _) as [u|];
  [ destruct (bool_decide (is_Some _)) eqn:Hpresent;
    [ | destruct (http_get w u) as [rejected|res];
        [ | destruct (ok res);
            [ destruct (body res) as [content|broken];
              [ destruct (write_failure w dk _) as [refused|] eqn:Hwrite | ] | ] ] ]
  | ]; cbn.

Lemma item_counter (w : World) (total : nat) (file : FileNode) (d : nat)
    (dk : gmap string Entry) :
  (item w total file d dk).1.1 = d + count is_progress (item w total file d dk).2
  /\ (item w total file d dk).1.1 = d + (if sat w dk file then 1 else 0)
  /\ count is_item_outcome (item w total file d dk).2 = 1.
Proof. item_cases w dk; repeat split; lia. Qed.

Lemma item_frame (w : World) (total : nat) (file : FileNode) (d : nat)
    (dk : gmap string Entry) (p : string) (e : Entry) :
  dk !! p = Some e -> (item w total file d dk).1.2 !! p = Some e.
Proof.
  intros Hp. item_cases w dk; try done.
  apply bool_decide_eq_false in Hpresent.
  rewrite lookup_insert_ne; [done|].
  intros <-. apply Hpresent. by rewrite Hp.
Qed.

Lemma item_writes (w : World) (total : nat) (file : FileNode) (d : nat)
    (dk : gmap string Entry) (p : string) (data : Buffer) :
  FileWritten p data ∈ (item w total file d dk).2 ->
  dk !! p = None /\ (item w total file d dk).1.2 = <[p := File data]> dk.
Proof.
  item_cases w dk; intros H;
    repeat (apply elem_of_cons in H as [H|H]; try discriminate);
    try (by apply elem_of_nil in H).
  injection H as -> ->. apply bool_decide_eq_false in Hpresent.
  split; [|done]. by apply eq_None_not_Some.
Qed.

Lemma item_changes (w : World) (total : nat) (file : FileNode) (d : nat)
    (dk : gmap string Entry) :
  (item w total file d dk).1.2 = dk
  \/ exists t data,
       target file = Some t /\ dk !! t = None
       /\ (item w total file d dk).1.2 = <[t := File data]> dk.
Proof.
  item_cases w dk; try (by left).
  right. apply bool_decide_eq_false in Hpresent.
  eexists _, _. split; [done|]. split; [|done]. by apply eq_None_not_Some.
Qed.

Lemma item_without_failure (w : World) (total : nat) (file : FileNode) (d : nat)
    (dk : gmap string Entry) :
  count is_failure (item w total file d dk).2 = 0 ->
  (forall t, target file = Some t -> is_Some ((item w total file d dk).1.2 !! t))
  /\ (item w total file d dk).1.1 = d + with_url path_join OUTPUT_DIR [file].
Proof.
  unfold with_url. cbn [omap list_omap].
  item_cases w dk; try discriminate; intros _; (split; [|cbn; lia]).
  - apply bool_decide_eq_true in Hpresent. by intros t [= <-].
  - intros t [= <-]. rewrite lookup_insert_eq. by eexists.
  - done.
Qed.

Lemma item_already_present (w : World) (total : nat) (file : FileNode) (d : nat)
    (dk : gmap string Entry) :
  (forall t, target file = Some t -> is_Some (dk !! t)) ->
  (item w total file d dk).1.2 = dk
  /\ (item w total file d dk).1.1 = d + with_url path_join OUTPUT_DIR [file]
  /\ count is_content_request (item w total file d dk).2 = 0
  /\ count is_write (item w total file d dk).2 = 0.
Proof.
  unfold with_url. cbn [omap list_omap].
  item_cases w dk; intros H;
    try (apply bool_decide_eq_false in Hpresent; destruct Hpresent; by apply H);
    repeat split; cbn; lia.
Qed.

Lemma item_progress_within (w : World) (total : nat) (file : FileNode) (d : nat)
    (dk : gmap string Entry) :
  d < total ->
  Forall (progress_within total) (item w total file d dk).2
  /\ (item w total file d dk).1.1 <= S d.
Proof.
  intros Hd.
  item_cases w dk;
    (split; [repeat (apply Forall_cons_2; [cbn; try done; lia|]);
             apply Forall_nil_2 | lia]).
Qed.

(** *** A sequence of records *)

Lemma run_effect_cons (w : World) (total : nat) (file : FileNode)
    (rest : list FileNode) (d : nat) (dk : gmap string Entry) :
  run w total (file :: rest) d dk =
    let i := item w total file d dk in
    let r := run w total rest i.1.1 i.1.2 in
    (r.1.1, r.1.2, i.2 ++ r.2).
Proof.
  cbn [run_effect]. destruct (item w total file d dk) as [[d1 dk1] evs1].
  cbn [fst snd]. by destruct (run w total rest d1 dk1) as [[d2 dk2] evs2].
Qed.

Lemma with_url_cons (file : FileNode) (rest : list FileNode) :
  with_url path_join OUTPUT_DIR (file :: rest) =
    with_url path_join OUTPUT_DIR [file] + with_url path_join OUTPUT_DIR rest.
Proof. unfold with_url. cbn. by destruct (target file). Qed.

Lemma run_counter (w : World) (total : nat) (files : list FileNode) (d : nat)
    (dk : gmap string Entry) :
  (run w total files d dk).1.1 = d + count is_progress (run w total files d dk).2
  /\ count is_item_outcome (run w total files d dk).2 = length files
  /\ (run w total files d dk).1.1 <= d + length files.
Proof.
  revert d dk. induction files as [|file rest IH]; intros d dk.
  - cbn. repeat split; lia.
  - rewrite run_effect_cons. cbn [fst snd length]. rewrite !count_app.
    destruct (item_counter w total file d dk) as (Hd & _ & Hone).
    destruct (IH (item w total file d dk).1.1 (item w total file d dk).1.2)
      as (IH1 & IH2 & IH3).
    pose proof (count_progress_le_outcome (item w total file d dk).2).
    repeat split; lia.
Qed.

Lemma run_frame (w : World) (total : nat) (files : list FileNode) (d : nat)
    (dk : gmap string Entry) (p : string) (e : Entry) :
  dk !! p = Some e -> (run w total files d dk).1.2 !! p = Some e.
Proof.
  revert d dk. induction files as [|file rest IH]; intros d dk Hp; [done|].
  rewrite run_effect_cons. cbn [fst snd]. apply IH. by apply item_frame.
Qed.

Lemma run_writes (w : World) (total : nat) (files : list FileNode) (d : nat)
    (dk : gmap string Entry) (p : string) (data : Buffer) :
  FileWritten p data ∈ (run w total files d dk).2 ->
  dk !! p = None /\ (run w total files d dk).1.2 !! p = Some (File data).
Proof.
  revert d dk. induction files as [|file rest IH]; intros d dk.
  - cbn. intros H. by apply elem_of_nil in H.
  - rewrite run_effect_cons. cbn [fst snd]. rewrite elem_of_app. intros [H|H].
    + apply item_writes in H as [Hnone Hdisk]. split; [done|].
      apply run_frame. rewrite Hdisk. apply lookup_insert_eq.
    + apply IH in H as [Hnone Hsome]. split; [|done].
      destruct (dk !! p) as [e|] eqn:Hp; [|done].
      apply (item_frame w total file d) in Hp. congruence.
Qed.

Lemma run_without_failure (w : World) (total : nat) (files : list FileNode)
    (d : nat) (dk : gmap string Entry) :
  count is_failure (run w total files d dk).2 = 0 ->
  (forall file t, file ∈ files -> target file = Some t ->
     is_Some ((run w total files d dk).1.2 !! t))
  /\ (run w total files d dk).1.1 = d + with_url path_join OUTPUT_DIR files.
Proof.
  revert d dk. induction files as [|file rest IH]; intros d dk.
  - cbn. intros _. split; [|unfold with_url; cbn; lia].
    intros file t H. by apply elem_of_nil in H.
  - rewrite run_effect_cons, with_url_cons. cbn [fst snd]. rewrite count_app.
    intros Hcount.
    destruct (item_without_failure w total file d dk) as [Hitem Hd]; [lia|].
    destruct (IH (item w total file d dk).1.1 (item w total file d dk).1.2)
      as [Hrest Hd']; [lia|].
    split; [|lia]. intros f t Hin Ht. apply elem_of_cons in Hin as [->|Hin].
    + destruct (Hitem t Ht) as [e He]. exists e. by apply run_frame.
    + by apply (Hrest f).
Qed.

Lemma run_already_present (w : World) (total : nat) (files : list FileNode)
    (d : nat) (dk : gmap string Entry) :
  (forall file t, file ∈ files -> target file = Some t -> is_Some (dk !! t)) ->
  (run w total files d dk).1.2 = dk
  /\ (run w total files d dk).1.1 = d + with_url path_join OUTPUT_DIR files
  /\ count is_content_request (run w total files d dk).2 = 0
  /\ count is_write (run w total files d dk).2 = 0.
Proof.
  revert d. induction files as [|file rest IH]; intros d Hall.
  - cbn. unfold with_url. cbn. repeat split; lia.
  - rewrite run_effect_cons, with_url_cons. cbn [fst snd]. rewrite !count_app.
    destruct (item_already_present w total file d dk) as (H1 & H2 & H3 & H4).
    { intros t. apply Hall. left. }
    rewrite H1.
    destruct (IH (item w total file d dk).1.1) as (R1 & R2 & R3 & R4).
    { intros f t Hin. apply Hall. by right. }
    repeat split; [done | lia | lia | lia].
Qed.

Lemma run_progress_within (w : World) (total : nat) (files : list FileNode)
    (d : nat) (dk : gmap string Entry) :
  d + length files <= total ->
  Forall (progress_within total) (run w total files d dk).2.
Proof.
  revert d dk. induction files as [|file rest IH]; intros d dk Hd.
  - constructor.
  - rewrite run_effect_cons. cbn [fst snd]. cbn [length] in Hd.
    destruct (item_progress_within w total file d dk) as [Hev Hle]; [lia|].
    apply Forall_app. split; [done|]. apply IH. lia.
Qed.

End PipelineFacts.

(** ** The pipeline as a whole *)




Lemma for_files_app (path_join : list string -> string) (OUTPUT_DIR : string)
    (w : World) (total : nat) (l1 l2 : list FileNode) (d d1 : nat) (m m1 : Machine) :
  for_files path_join OUTPUT_DIR w total l1 d m = (Normal d1, m1) ->
  for_files path_join OUTPUT_DIR w total (l1 ++ l2) d m =
    for_files path_join OUTPUT_DIR w total l2 d1 m1.
Proof.
  revert d m. induction l1 as [|file rest IH]; intros d m.
  - cbn. unfold ret. by intros [= <- <-].
  - cbn [for_files app]. unfold bind. rewrite download_one_effect. apply IH.
Qed.

Lemma for_files_one (path_join : list string -> string) (OUTPUT_DIR : string)
    (w : World) (total : nat) (file : FileNode) (d : nat) (m : Machine) :
  for_files path_join OUTPUT_DIR w total [file] d m =
    download_one path_join OUTPUT_DIR w total file d m.
Proof. cbn [for_files]. unfold bind. by rewrite download_one_effect. Qed.

(** C6: with [total] the length of the input sequence, handed unchanged to
    every iteration, the counter [downloaded] starts at 0; the loop handles
    the records one after the other, the record at position [k] on the
    counter and the machine that the first [k] records left, and on that
    record the counter grows by one exactly when the record is already
    present at its target path or is fetched and written, and not otherwise;
    after any number [k] of records it equals the number of progress lines
    printed so far and is at most [k] and at most [total]; every progress
    line shows a counter between 1 and [total] together with [total]; the
    summary shows the final counter and [total]; and the counter can end
    below [total]. *)
Theorem progress_counters (path_join : list string -> string) (OUTPUT_DIR : string)
    (w : World) (files : list FileNode) (m : Machine) :
  let total := length files in
  (forall file d m0,
     fst (download_one path_join OUTPUT_DIR w total file d m0) =
       Normal (d + if satisfied path_join OUTPUT_DIR w (disk m0) file then 1 else 0))
  /\ for_files path_join OUTPUT_DIR w total (take 0 files) 0 m = (Normal 0, m)
  /\ (forall k file dk mk,
        files !! k = Some file ->
        for_files path_join OUTPUT_DIR w total (take k files) 0 m = (Normal dk, mk) ->
        for_files path_join OUTPUT_DIR w total (take (S k) files) 0 m
          = download_one path_join OUTPUT_DIR w total file dk mk
        /\ fst (for_files path_join OUTPUT_DIR w total (take (S k) files) 0 m)
             = Normal (dk + if satisfied path_join OUTPUT_DIR w (disk mk) file
                            then 1 else 0))
  /\ (forall k, exists dk mk evs,
        for_files path_join OUTPUT_DIR w total (take k files) 0 m = (Normal dk, mk)
        /\ log mk = log m ++ evs
        /\ dk = count is_progress evs
        /\ dk <= k /\ dk <= total
        /\ Forall (progress_within total) evs)
  /\ (exists d mfinal evs,
        for_files path_join OUTPUT_DIR w total files 0 m = (Normal d, mfinal)
        /\ log mfinal = log m ++ evs
        /\ snd (downloadFiles path_join OUTPUT_DIR w files m)
             = {| disk := disk mfinal;
                  log := log m ++ evs ++ [LogAllProcessed d total] |}
        /\ d = count is_progress evs
        /\ d <= total)
  /\ (exists d,
        last (log (snd (downloadFiles path_join OUTPUT_DIR w
                          [image_without_image] m)))
          = Some (LogAllProcessed d 1)
        /\ d < 1).
Proof.
  intros total. subst total.
  assert (Hstep : forall file d m0,
    fst (download_one path_join OUTPUT_DIR w (length files) file d m0) =
      Normal (d + if satisfied path_join OUTPUT_DIR w (disk m0) file then 1 else 0)).
  { intros file d m0. rewrite download_one_effect. cbn [fst]. f_equal.
    apply item_counter. }
  split; [exact Hstep|]. split; [done|]. split; [|split; [|split]].
  - intros k file dk mk Hfile Hprefix.
    rewrite (take_S_r _ _ _ Hfile).
    rewrite (for_files_app _ _ _ _ _ [file] _ _ _ _ Hprefix), for_files_one.
    split; [done | apply Hstep].
  - intros k. rewrite for_files_effect. eexists _, _, _.
    split; [done|]. cbn [log]. split; [done|].
    destruct (run_counter path_join OUTPUT_DIR w (length files) (take k files) 0
                (disk m)) as (Hd & _ & Hle).
    rewrite length_take in Hle.
    split; [exact Hd|]. split; [lia|]. split; [lia|].
    apply run_progress_within. rewrite length_take. lia.
  - rewrite for_files_effect, downloadFiles_effect. eexists _, _, _.
    split; [done|]. cbn [log disk snd]. split; [done|]. split; [done|].
    destruct (run_counter path_join OUTPUT_DIR w (length files) files 0 (disk m))
      as (Hd & _ & Hle).
    split; [exact Hd | exact Hle].
  - exists 0. rewrite downloadFiles_effect. cbn. split; [|lia].
    by rewrite last_app.
Qed.

Lemma progress_counters_witness :
  let files := [generic_a; image_without_image; external_y] in
  files !! 2 = Some external_y
  /\ for_files join_slash "out" world_ok 3 (take 2 files) 0 fresh_machine
       = (Normal 1,
          {| disk := {[ "out/generic/a.zip" := File bytes_abc ]};
             log := [ContentRequest "https://cdn.example.com/files/a.zip";
                     FileWritten "out/generic/a.zip" bytes_abc;
                     OutSaved 1 3 "generic" "a.zip";
                     WarnNoUrl (Some "gid://shopify/MediaImage/2") "MediaImage"] |})
  /\ fst (for_files join_slash "out" world_ok 3 (take 3 files) 0 fresh_machine)
       = Normal 2.
Proof.
  intros files.
  assert (H1 : files !! 2 = Some external_y) by reflexivity.
  assert (H2 : for_files join_slash "out" world_ok 3 (take 2 files) 0 fresh_machine
       = (Normal 1,
          {| disk := {[ "out/generic/a.zip" := File bytes_abc ]};
             log := [ContentRequest "https://cdn.example.com/files/a.zip";
                     FileWritten "out/generic/a.zip" bytes_abc;
                     OutSaved 1 3 "generic" "a.zip";
                     WarnNoUrl (Some "gid://shopify/MediaImage/2") "MediaImage"] |}))
    by reflexivity.
  split; [exact H1|]. split; [exact H2|].
  exact (proj2 (proj1 (proj2 (proj2
           (progress_counters join_slash "out" world_ok files fresh_machine)))
           2 external_y _ _ H1 H2)).
Defined.

(** C8: a run of [downloadFiles] leaves every entry that was on the disk
    before it in place and unchanged; each iteration either leaves the disk as
    it is or adds a file at a target path where nothing existed; and every
    write of the run goes to a path that did not exist before the run. *)
Theorem downloadFiles_append_only (path_join : list string -> string)
    (OUTPUT_DIR : string) (w : World) (files : list FileNode) (m : Machine) :
  (forall p e,
     disk m !! p = Some e ->
     disk (snd (downloadFiles path_join OUTPUT_DIR w files m)) !! p = Some e)
  /\ (forall total file d m0,
        let m' := snd (download_one path_join OUTPUT_DIR w total file d m0) in
        disk m' = disk m0
        \/ exists t data,
             target_of path_join OUTPUT_DIR file = Some t
             /\ disk m0 !! t = None
             /\ disk m' = <[t := File data]> (disk m0))
  /\ (exists evs d,
        log (snd (downloadFiles path_join OUTPUT_DIR w files m))
          = log m ++ evs ++ [LogAllProcessed d (length files)]
        /\ forall p data,
             FileWritten p data ∈ evs ->
             disk m !! p = None
             /\ disk (snd (downloadFiles path_join OUTPUT_DIR w files m)) !! p
                  = Some (File data)).
Proof.
  rewrite downloadFiles_effect. cbn [snd disk log].
  split; [|split].
  - intros p e. apply run_frame.
  - intros total file d m0. rewrite download_one_effect. cbn [snd disk].
    apply item_changes.
  - eexists _, _. split; [done|]. intros p data. apply run_writes.
Qed.

Lemma downloadFiles_append_only_witness :
  let m := {| disk := {[ "out/generic/a.zip" := File bytes_abc ]}; log := [] |} in
  disk m !! "out/generic/a.zip" = Some (File bytes_abc)
  /\ disk (snd (downloadFiles join_slash "out" world_ok [generic_a; external_y] m))
       !! "out/generic/a.zip" = Some (File bytes_abc).
Proof.
  intros m. split; [reflexivity|].
  apply (proj1 (downloadFiles_append_only join_slash "out" world_ok
                  [generic_a; external_y] m)).
  reflexivity.
Defined.

(** ** Running the pipeline twice *)

Lemma count_summary (kind : Event -> bool) (evs : list Event) (d total : nat) :
  kind (LogAllProcessed d total) = false ->
  count kind (evs ++ [LogAllProcessed d total]) = count kind evs.
Proof. intros H. rewrite count_app. unfold count at 2. cbn. rewrite H. cbn. lia. Qed.

(** C2, as amended: a record whose target path already exists is counted as
    satisfied without a content fetch; and if the first run of
    [downloadFiles] met no per-item fetch or write failure, then a second run
    over the same sequence, against the disk the first run left and whatever
    the server now answers, performs no content fetch and no write, leaves the
    disk as it is, and ends with the same downloaded count as the first
    run. *)
Theorem second_run_fetches_nothing (path_join : list string -> string)
    (OUTPUT_DIR : string) :
  (forall w total file d m0 t,
     target_of path_join OUTPUT_DIR file = Some t ->
     is_Some (disk m0 !! t) ->
     exists evs,
       download_one path_join OUTPUT_DIR w total file d m0
         = (Normal (S d), {| disk := disk m0; log := log m0 ++ evs |})
       /\ count is_content_request evs = 0) /\
  (forall (w1 w2 : World) (files : list FileNode) (dk0 : gmap string Entry),
     let run1 := downloadFiles path_join OUTPUT_DIR w1 files
                   {| disk := dk0; log := [] |} in
     let run2 := downloadFiles path_join OUTPUT_DIR w2 files
                   {| disk := disk (snd run1); log := [] |} in
     count is_failure (log (snd run1)) = 0 ->
     fst run2 = Normal tt
     /\ count is_content_request (log (snd run2)) = 0
     /\ count is_write (log (snd run2)) = 0
     /\ disk (snd run2) = disk (snd run1)
     /\ exists d,
          last (log (snd run1)) = Some (LogAllProcessed d (length files))
          /\ last (log (snd run2)) = Some (LogAllProcessed d (length files))).
Proof.
  split.
  - intros w total file d m0 t Ht Hsome. rewrite download_one_effect.
    destruct (item_already_present path_join OUTPUT_DIR w total file d (disk m0))
      as (H1 & H2 & H3 & _).
    { intros t' Ht'. rewrite Ht in Ht'. by injection Ht' as <-. }
    rewrite H1, H2. unfold with_url. cbn [omap list_omap]. rewrite Ht.
    cbn [length]. replace (d + 1) with (S d) by lia. by eexists.
  - intros w1 w2 files dk0 run1 run2. subst run1 run2.
    rewrite !downloadFiles_effect. cbn [fst snd disk log app].
    rewrite !count_summary by done. intros Hclean.
    destruct (run_without_failure path_join OUTPUT_DIR w1 (length files) files 0 dk0
                Hclean) as [Hpresent Hd1].
    destruct (run_already_present path_join OUTPUT_DIR w2 (length files) files 0
                (run_effect path_join OUTPUT_DIR w1 (length files) files 0 dk0).1.2
                Hpresent) as (Hdisk & Hd2 & Hreq & Hwr).
    split; [done|]. split; [done|]. split; [done|]. split; [done|].
    eexists. rewrite !last_snoc. split; [done|]. by rewrite Hd2, Hd1.
Qed.

Lemma second_run_fetches_nothing_witness :
  let run1 := downloadFiles join_slash "out" world_ok
                [generic_a; image_without_image; external_y]
                {| disk := ∅; log := [] |} in
  let run2 := downloadFiles join_slash "out" world_500
                [generic_a; image_without_image; external_y]
                {| disk := disk (snd run1); log := [] |} in
  count is_failure (log (snd run1)) = 0
  /\ last (log (snd run1)) = Some (LogAllProcessed 2 3)
  /\ count is_content_request (log (snd run1)) = 2
  /\ count is_content_request (log (snd run2)) = 0.
Proof.
  intros run1 run2.
  split; [reflexivity|]. split; [reflexivity|]. split; [reflexivity|].
  exact (proj1 (proj2 (proj2 (second_run_fetches_nothing join_slash "out") world_ok
                  world_500 [generic_a; image_without_image; external_y] ∅
                  eq_refl))).
Defined.

(** C2, as stated, fails when a content fetch fails in the first run: the
    record is not on the disk afterwards, so the second run fetches it
    again. *)
Lemma second_run_refetches_failed :
  let run1 := downloadFiles join_slash "out" world_500 [generic_a]
                {| disk := ∅; log := [] |} in
  let run2 := downloadFiles join_slash "out" world_500 [generic_a]
                {| disk := disk (snd run1); log := [] |} in
  log (snd run2) =
    [ContentRequest "https://cdn.example.com/files/a.zip";
     ErrFailed "a.zip" "Internal Server Error";
     LogAllProcessed 0 1]
  /\ count is_content_request (log (snd run2)) = 1
  /\ count is_content_request (log (snd run2)) <> 0.
Proof. repeat split. discriminate. Qed.

(** * Further properties of the code *)

(** ** The enumerator on arbitrary scripts *)

Lemma fetch_page_requests (st : EnumState) (r : Response) :
  sent_cursors (fst (fetch_page st r)) = [st_cursor st]
  /\ logged_pages (fst (fetch_page st r)) = [st_page st].
Proof.
  unfold fetch_page. destruct r; try done.
  by destruct (next_cursor _ _).
Qed.

Lemma fetch_page_next (st st' : EnumState) (r : Response) :
  snd (fetch_page st r) = Normal st' -> st_page st' = S (st_page st).
Proof.
  unfold fetch_page. destruct r; try done.
  destruct (next_cursor _ _); try done. cbn. by intros [= <-].
Qed.

Lemma fetch_page_no_exit (st : EnumState) (r : Response) :
  (forall code, snd (fetch_page st r) <> Exit code)
  /\ snd (fetch_page st r) <> Pending.
Proof.
  unfold fetch_page. destruct r; try done.
  unfold next_cursor. destruct (hasNextPage p); [|done].
  by destruct (last _).
Qed.

Lemma fetch_loop_cons (r : Response) (rest : list Response) (st : EnumState) :
  st_hasNextPage st = true ->
  fetch_loop (r :: rest) st =
    match snd (fetch_page st r) with
    | Normal st' => enum_after (fst (fetch_page st r)) (fetch_loop rest st')
    | Throw e =>
        {| enum_result := Throw e; enum_trace := fst (fetch_page st r);
           enum_unread := rest |}
    | Exit code =>
        {| enum_result := Exit code; enum_trace := fst (fetch_page st r);
           enum_unread := rest |}
    | Pending =>
        {| enum_result := Pending; enum_trace := fst (fetch_page st r);
           enum_unread := rest |}
    end.
Proof.
  intros Hst. cbn [fetch_loop]. rewrite Hst.
  destruct (fetch_page st r) as [evs c]. by destruct c.
Qed.

Lemma fetch_loop_no_exit (script : list Response) (st : EnumState) (code : Z) :
  enum_result (fetch_loop script st) <> Exit code.
Proof.
  revert st. induction script as [|r rest IH]; intros st.
  - cbn. by destruct (st_hasNextPage st).
  - destruct (st_hasNextPage st) eqn:Hst; [|by rewrite fetch_loop_stopped].
    rewrite fetch_loop_cons by done.
    destruct (fetch_page_no_exit st r) as [Hexit Hpend].
    destruct (snd (fetch_page st r)) as [st'| |c|]; cbn;
      [apply IH | done | by destruct (Hexit c) | done].
Qed.

Lemma fetch_loop_extend (script extra : list Response) (st : EnumState) :
  enum_result (fetch_loop script st) <> Pending ->
  fetch_loop (script ++ extra) st =
    {| enum_result := enum_result (fetch_loop script st);
       enum_trace := enum_trace (fetch_loop script st);
       enum_unread := enum_unread (fetch_loop script st) ++ extra |}
  /\ length (sent_cursors (enum_trace (fetch_loop script st)))
       + length (enum_unread (fetch_loop script st)) = length script.
Proof.
  revert st. induction script as [|r rest IH]; intros st.
  - destruct (st_hasNextPage st) eqn:Hst.
    + cbn. by rewrite Hst.
    + intros _. rewrite !fetch_loop_stopped by done. done.
  - destruct (st_hasNextPage st) eqn:Hst.
    2:{ intros _. rewrite !fetch_loop_stopped by done. cbn. done. }
    rewrite <- app_comm_cons, !fetch_loop_cons by done.
    destruct (fetch_page_requests st r) as [Hreq _].
    destruct (snd (fetch_page st r)) as [st'|e|code|];
      cbn [enum_result enum_trace enum_unread enum_after length].
    + intros Hres. destruct (IH st' Hres) as [-> Hlen].
      cbn [enum_result enum_trace enum_unread enum_after].
      split; [done|]. unfold sent_cursors in *. rewrite omap_app, length_app.
      rewrite Hreq. cbn [length]. lia.
    + intros _. rewrite Hreq. cbn. done.
    + intros _. rewrite Hreq. cbn. done.
    + done.
Qed.

(** X1: the outcome of [fetchAllFiles] depends only on the responses it
    consumes.  Whenever it returns or throws on a script, it does the same,
    with the same requests, on every extension of the script, leaving the
    added responses unread; and it has sent exactly one request per response
    consumed. *)
Theorem fetchAllFiles_consumed_prefix (script extra : list Response) :
  enum_result (fetchAllFiles script) <> Pending ->
  fetchAllFiles (script ++ extra) =
    {| enum_result := enum_result (fetchAllFiles script);
       enum_trace := enum_trace (fetchAllFiles script);
       enum_unread := enum_unread (fetchAllFiles script) ++ extra |}
  /\ length (sent_cursors (enum_trace (fetchAllFiles script)))
       + length (enum_unread (fetchAllFiles script)) = length script.
Proof. apply fetch_loop_extend. Qed.

Lemma fetchAllFiles_consumed_prefix_witness :
  enum_result (fetchAllFiles [FilesData page_two]) <> Pending
  /\ enum_unread (fetchAllFiles ([FilesData page_two] ++ [FilesData page_one]))
       = [FilesData page_one].
Proof.
  assert (H : enum_result (fetchAllFiles [FilesData page_two]) <> Pending)
    by discriminate.
  split; [exact H|].
  exact (f_equal enum_unread
           (proj1 (fetchAllFiles_consumed_prefix [FilesData page_two]
                     [FilesData page_one] H))).
Defined.

Lemma fetch_loop_failure (ps : list FilesPage) (bad : Response)
    (rest : list Response) (st : EnumState) (e : JsError) :
  st_hasNextPage st = true ->
  Forall continues ps ->
  (forall st', snd (fetch_page st' bad) = Throw e) ->
  enum_result (fetch_loop ((FilesData <$> ps) ++ bad :: rest) st) = Throw e
  /\ enum_unread (fetch_loop ((FilesData <$> ps) ++ bad :: rest) st) = rest
  /\ sent_cursors (enum_trace (fetch_loop ((FilesData <$> ps) ++ bad :: rest) st))
       = st_cursor st :: (last_edge_cursor <$> ps).
Proof.
  intros Hst Hps Hbad. revert st Hst.
  induction Hps as [|p ps Hp Hps IH]; intros st Hst.
  - cbn [fmap list_fmap app]. rewrite fetch_loop_cons, Hbad by done.
    cbn [enum_result enum_unread enum_trace].
    by destruct (fetch_page_requests st bad) as [-> _].
  - rewrite fmap_cons, <- app_comm_cons, fetch_loop_cons by done.
    destruct (fetch_page_continues st p Hp) as (edge & El & Hpage).
    rewrite Hpage. cbn [fst snd enum_after enum_result enum_unread enum_trace].
    destruct (IH {| st_allFiles := st_allFiles st ++ page_nodes p;
                    st_hasNextPage := true; st_cursor := Some (cursor edge);
                    st_page := S (st_page st) |} eq_refl) as (-> & -> & H3).
    split; [done|]. split; [done|].
    unfold sent_cursors in *. rewrite omap_app, H3. cbn.
    unfold last_edge_cursor. by rewrite El.
Qed.

(** X2: the enumeration stops at the first failing response, whatever number of
    pages came before it: a rejected fetch throws "Network error: " followed
    by the cause, a non-success status throws "GraphQL error", the status and
    the response text, a body that cannot be read throws its own error, and a
    GraphQL error list throws "Shopify GraphQL query failed".  The nodes
    collected so far are not returned, no further request is sent, and the
    requests sent are one per page plus the failing one. *)
Theorem enumeration_fails_fast (ps : list FilesPage) (rest : list Response) :
  Forall continues ps ->
  let fails_with (bad : Response) (e : JsError) :=
    let r := fetchAllFiles ((FilesData <$> ps) ++ bad :: rest) in
    enum_result r = Throw e
    /\ enum_unread r = rest
    /\ sent_cursors (enum_trace r) = None :: (last_edge_cursor <$> ps) in
  (forall m, fails_with (FetchRejected m) (Error ("Network error: " +:+ m)))
  /\ (forall status text,
        fails_with (HttpStatus status text)
          (Error ("GraphQL error " +:+ pretty status +:+ ": " +:+ text)))
  /\ (forall e, fails_with (MalformedBody e) e)
  /\ (forall errors,
        fails_with (GraphQLErrors errors) (Error "Shopify GraphQL query failed")).
Proof.
  intros Hps fails_with. subst fails_with. cbv zeta.
  split; [|split; [|split]]; intros;
    unfold fetchAllFiles; apply fetch_loop_failure; done.
Qed.

Lemma enumeration_fails_fast_witness :
  Forall continues [page_one]
  /\ enum_result (fetchAllFiles ((FilesData <$> [page_one])
                                   ++ HttpStatus 401 "Unauthorized" :: []))
       = Throw (Error "GraphQL error 401: Unauthorized").
Proof.
  assert (H : Forall continues [page_one]).
  { constructor; [|constructor]. split; [reflexivity | discriminate]. }
  split; [exact H|].
  exact (proj1 (proj1 (proj2 (enumeration_fails_fast [page_one] [] H))
                  401%N "Unauthorized")).
Defined.

Lemma fetch_loop_pages_logged (script : list Response) (st : EnumState) :
  logged_pages (enum_trace (fetch_loop script st)) =
    seq (st_page st) (length (sent_cursors (enum_trace (fetch_loop script st)))).
Proof.
  revert st. induction script as [|r rest IH]; intros st.
  - cbn. by destruct (st_hasNextPage st).
  - destruct (st_hasNextPage st) eqn:Hst; [|by rewrite fetch_loop_stopped].
    rewrite fetch_loop_cons by done.
    destruct (fetch_page_requests st r) as [Hreq Hlog].
    pose proof (fetch_page_next st) as Hnext. specialize (Hnext) with (r := r).
    destruct (snd (fetch_page st r)) as [st'| | |];
      cbn [enum_after enum_trace]; try (rewrite Hreq, Hlog; done).
    unfold logged_pages, sent_cursors in *. rewrite !omap_app, Hreq, Hlog.
    rewrite IH, (Hnext st' eq_refl). done.
Qed.

(** X3: the pages are numbered from 1 without a gap: on every script, the page
    numbers printed are 1, 2, ... up to the number of requests sent. *)
Theorem pages_numbered_from_one (script : list Response) :
  logged_pages (enum_trace (fetchAllFiles script)) =
    seq 1 (length (sent_cursors (enum_trace (fetchAllFiles script)))).
Proof. apply fetch_loop_pages_logged. Qed.

(** ** The top level: configuration, directories, [main] *)

Lemma main_success_effect (path_join : list string -> string) (OUTPUT_DIR : string)
    (w : World) (script : list Response) (m : Machine) (files : list FileNode) :
  enum_result (fetchAllFiles script) = Normal files ->
  main path_join OUTPUT_DIR w script m =
    (Normal tt,
     {| disk := (run_effect path_join OUTPUT_DIR w (length files) files 0 (disk m)).1.2;
        log := log m ++ [LogFetchingAll] ++ enum_trace (fetchAllFiles script)
                 ++ [LogFound (length files)]
                 ++ (run_effect path_join OUTPUT_DIR w (length files) files 0
                       (disk m)).2
                 ++ [LogAllProcessed
                       (run_effect path_join OUTPUT_DIR w (length files) files 0
                          (disk m)).1.1 (length files)]
                 ++ [LogDone OUTPUT_DIR] |}).
Proof.
  intros H. unfold main, try_catch.
  unfold bind at 1. unfold emit at 1.
  unfold bind at 1. unfold await_fetchAllFiles at 1. rewrite H. cbn [disk log].
  unfold bind at 1. unfold emit at 1. cbn [disk log].
  unfold bind at 1. rewrite downloadFiles_effect. cbn [disk log].
  unfold emit. cbn [disk log]. by rewrite <- !app_assoc.
Qed.

Lemma main_pending_effect (path_join : list string -> string) (OUTPUT_DIR : string)
    (w : World) (script : list Response) (m : Machine) :
  enum_result (fetchAllFiles script) = Pending ->
  fst (main path_join OUTPUT_DIR w script m) = Pending.
Proof.
  intros H. unfold main, try_catch, bind, emit, await_fetchAllFiles. cbn.
  by rewrite H.
Qed.

(** X4: when [fetchAllFiles] returns, [main] hands exactly the returned
    sequence to [downloadFiles], after printing how many files were found,
    and prints the closing line with the output directory once the pipeline
    is through; it ends normally. *)
Theorem main_runs_pipeline_on_enumerated (path_join : list string -> string)
    (OUTPUT_DIR : string) (w : World) (script : list Response) (m : Machine)
    (files : list FileNode) :
  enum_result (fetchAllFiles script) = Normal files ->
  let handed :=
    {| disk := disk m;
       log := log m ++ [LogFetchingAll] ++ enum_trace (fetchAllFiles script)
                ++ [LogFound (length files)] |} in
  main path_join OUTPUT_DIR w script m =
    (Normal tt,
     {| disk := disk (snd (downloadFiles path_join OUTPUT_DIR w files handed));
        log := log (snd (downloadFiles path_join OUTPUT_DIR w files handed))
                 ++ [LogDone OUTPUT_DIR] |}).
Proof.
  intros H handed. subst handed. rewrite (main_success_effect _ _ _ _ _ files H).
  rewrite downloadFiles_effect. cbn [snd disk log]. by rewrite <- !app_assoc.
Qed.

Lemma main_runs_pipeline_on_enumerated_witness :
  enum_result (fetchAllFiles [FilesData page_one; FilesData page_two])
    = Normal [generic_a; image_without_image; external_y]
  /\ last (log (snd (main join_slash "out" world_ok
                       [FilesData page_one; FilesData page_two] fresh_machine)))
       = Some (LogDone "out").
Proof.
  split; [reflexivity|].
  rewrite (main_runs_pipeline_on_enumerated join_slash "out" world_ok
             [FilesData page_one; FilesData page_two] fresh_machine
             [generic_a; image_without_image; external_y] eq_refl).
  cbn [snd log]. apply last_snoc.
Defined.

(** X5: when the enumeration throws, [main] catches the exception and prints
    its message as the last line; it ends normally, leaves the disk as it
    was, and performs no part of the pipeline: no count of found files is
    printed, no content is requested and nothing is written. *)
Theorem main_reports_enumeration_failure (path_join : list string -> string)
    (OUTPUT_DIR : string) (w : World) (script : list Response) (m : Machine)
    (e : JsError) :
  enum_result (fetchAllFiles script) = Throw e ->
  fst (main path_join OUTPUT_DIR w script m) = Normal tt
  /\ disk (snd (main path_join OUTPUT_DIR w script m)) = disk m
  /\ exists evs,
       log (snd (main path_join OUTPUT_DIR w script m))
         = log m ++ evs ++ [ErrTopLevel (message e)]
       /\ count is_content_request evs = 0
       /\ count is_write evs = 0
       /\ count is_item_outcome evs = 0
       /\ forall n, LogFound n ∉ evs.
Proof.
  intros H. rewrite (main_enumeration_failure _ _ _ _ _ e H). cbn [fst snd disk log].
  split; [done|]. split; [done|].
  exists ([LogFetchingAll] ++ enum_trace (fetchAllFiles script)).
  split; [by rewrite <- !app_assoc|].
  assert (Htrace : forall evs,
    Forall (fun ev => match ev with
                      | LogFetchingPage _ | GraphQLRequest _ | ErrGraphQLErrors _ => True
                      | _ => False
                      end) evs ->
    count is_content_request evs = 0 /\ count is_write evs = 0
    /\ count is_item_outcome evs = 0 /\ forall n, LogFound n ∉ evs).
  { induction 1 as [|ev evs Hev _ (IH1 & IH2 & IH3 & IH4)].
    - repeat split. intros n Hn. by apply elem_of_nil in Hn.
    - unfold count in *. destruct ev; try done; cbn; repeat split; try done;
        intros n Hn; apply elem_of_cons in Hn as [Hn|Hn]; try done; by apply (IH4 n). }
  assert (Hloop : forall sc st,
    Forall (fun ev => match ev with
                      | LogFetchingPage _ | GraphQLRequest _ | ErrGraphQLErrors _ => True
                      | _ => False
                      end) (enum_trace (fetch_loop sc st))).
  { induction sc as [|r rest IH]; intros st.
    - cbn. destruct (st_hasNextPage st); constructor.
    - destruct (st_hasNextPage st) eqn:Hst;
        [|rewrite fetch_loop_stopped by done; constructor].
      rewrite fetch_loop_cons by done.
      assert (Hpage : Forall (fun ev => match ev with
                      | LogFetchingPage _ | GraphQLRequest _ | ErrGraphQLErrors _ => True
                      | _ => False
                      end) (fst (fetch_page st r))).
      { unfold fetch_page. destruct r; cbn; repeat constructor.
        destruct (next_cursor _ _); cbn; repeat constructor. }
      destruct (snd (fetch_page st r)); cbn [enum_after enum_trace]; try done.
      apply Forall_app. split; [done | apply IH]. }
  destruct (Htrace _ (Hloop script enum_init)) as (T1 & T2 & T3 & T4).
  rewrite !count_app. unfold fetchAllFiles in *. rewrite T1, T2, T3.
  repeat split; try done.
  intros n Hn. apply elem_of_app in Hn as [Hn|Hn]; [|by apply (T4 n)].
  apply elem_of_cons in Hn as [Hn|Hn]; [done|]. by apply elem_of_nil in Hn.
Qed.

Lemma main_reports_enumeration_failure_witness :
  enum_result (fetchAllFiles [GraphQLErrors "Throttled"])
    = Throw (Error "Shopify GraphQL query failed")
  /\ fst (main join_slash "out" world_ok [GraphQLErrors "Throttled"] fresh_machine)
       = Normal tt.
Proof.
  split; [reflexivity|].
  exact (proj1 (main_reports_enumeration_failure join_slash "out" world_ok
                  [GraphQLErrors "Throttled"] fresh_machine
                  (Error "Shopify GraphQL query failed") eq_refl)).
Defined.

(** X6: no exception and no exit escapes [main]: on every script and in every
    world it ends normally, unless the enumeration itself is still waiting
    for a response. *)
Theorem main_lets_nothing_escape (path_join : list string -> string)
    (OUTPUT_DIR : string) (w : World) (script : list Response) (m : Machine) :
  (forall e, fst (main path_join OUTPUT_DIR w script m) <> Throw e)
  /\ (forall code, fst (main path_join OUTPUT_DIR w script m) <> Exit code)
  /\ (fst (main path_join OUTPUT_DIR w script m) = Pending
      <-> enum_result (fetchAllFiles script) = Pending)
  /\ (fst (main path_join OUTPUT_DIR w script m) = Normal tt
      <-> enum_result (fetchAllFiles script) <> Pending).
Proof.
  destruct (enum_result (fetchAllFiles script)) as [files|e|code|] eqn:H.
  - rewrite (main_success_effect _ _ _ _ _ files H). cbn [fst]. by repeat split.
  - rewrite (main_enumeration_failure _ _ _ _ _ e H). cbn [fst]. by repeat split.
  - by destruct (fetch_loop_no_exit script enum_init code).
  - rewrite (main_pending_effect _ _ _ _ _ H). by repeat split.
Qed.

Lemma ensure_directories_frame (l : list string) (dk : gmap string Entry)
    (p : string) (e : Entry) :
  dk !! p = Some e -> foldl ensure_directory dk l !! p = Some e.
Proof.
  revert dk. induction l as [|a l IH]; intros dk Hp; [done|].
  cbn [foldl]. apply IH. unfold ensure_directory.
  destruct (dk !! a) eqn:Ha; [done|].
  rewrite lookup_insert_ne; [done|]. intros <-. congruence.
Qed.

Lemma mkdir_frame (dk : gmap string Entry) (full p : string) (e : Entry) :
  dk !! full = None ->
  dk !! p = Some e ->
  <[full := Directory]> (foldl ensure_directory dk (ancestors full)) !! p = Some e.
Proof.
  intros Hfull Hp. rewrite lookup_insert_ne by congruence.
  by apply ensure_directories_frame.
Qed.

Section Bootstrap.

Variable path_join : list string -> string.
Variable OUTPUT_DIR : string.
Variable w : World.

Local Abbreviation mk := (make_subdirs path_join OUTPUT_DIR w).

Lemma make_subdirs_cons (dir : string) (rest : list string) (m : Machine) :
  mk (dir :: rest) m =
    let full := path_join [OUTPUT_DIR; dir] in
    if bool_decide (is_Some (disk m !! full)) then mk rest m
    else match mkdir_failure w (disk m) full with
         | Some msg => (Throw (Error msg), m)
         | None => mk rest {| disk := <[full := Directory]>
                                        (foldl ensure_directory (disk m) (ancestors full));
                              log := log m ++ [MkDir full] |}
         end.
Proof.
  cbn [make_subdirs]. unfold bind at 1. unfold existsSync at 1.
  destruct (bool_decide _); unfold bind, ret, mkdirSync; [done|].
  by destruct (mkdir_failure w (disk m) _).
Qed.

Lemma make_subdirs_frame (dirs : list string) (m : Machine) (p : string) (e : Entry) :
  disk m !! p = Some e -> disk (snd (mk dirs m)) !! p = Some e.
Proof.
  revert m. induction dirs as [|dir rest IH]; intros m Hp; [done|].
  rewrite make_subdirs_cons. cbv zeta.
  destruct (bool_decide _) eqn:Hpresent; [by apply IH|].
  destruct (mkdir_failure w (disk m) _); [done|].
  apply IH. cbn [disk]. apply bool_decide_eq_false in Hpresent.
  apply mkdir_frame; [by apply eq_None_not_Some | done].
Qed.

Lemma make_subdirs_present (dirs : list string) (m : Machine) :
  (forall dir, dir ∈ dirs -> is_Some (disk m !! path_join [OUTPUT_DIR; dir])) ->
  mk dirs m = (Normal tt, m).
Proof.
  induction dirs as [|dir rest IH]; intros Hall; [done|].
  rewrite make_subdirs_cons. cbv zeta.
  rewrite bool_decide_true by (apply Hall; left).
  apply IH. intros d Hd. apply Hall. by right.
Qed.


Lemma make_subdirs_refused (dirs : list string) (m : Machine) (msg : string) :
  (forall dk p, mkdir_failure w dk p = Some msg) ->
  (exists dir, dir ∈ dirs /\ disk m !! path_join [OUTPUT_DIR; dir] = None) ->
  mk dirs m = (Throw (Error msg), m).
Proof.
  intros Hfail. induction dirs as [|dir rest IH]; intros (d & Hd & Hnone).
  - by apply elem_of_nil in Hd.
  - rewrite make_subdirs_cons. cbv zeta.
    destruct (bool_decide _) eqn:Hpresent; [|by rewrite Hfail].
    apply IH. apply elem_of_cons in Hd as [->|Hd]; [|by exists d].
    apply bool_decide_eq_true in Hpresent. rewrite Hnone in Hpresent.
    by destruct Hpresent.
Qed.

End Bootstrap.



(** X8: the loop of lines 17-20 never changes or removes an entry that is
    already on the disk, whichever way it ends; and when the six
    subdirectories all exist it does nothing at all, also on a file system
    that would refuse to create a directory. *)
Theorem subdirs_existing_untouched (path_join : list string -> string)
    (OUTPUT_DIR : string) (w : World) (m : Machine) :
  (forall p e,
     disk m !! p = Some e ->
     disk (snd (make_subdirs path_join OUTPUT_DIR w subdirs m)) !! p = Some e)
  /\ ((forall dir, dir ∈ subdirs -> is_Some (disk m !! path_join [OUTPUT_DIR; dir])) ->
      make_subdirs path_join OUTPUT_DIR w subdirs m = (Normal tt, m)).
Proof.
  split.
  - intros p e. apply make_subdirs_frame.
  - apply make_subdirs_present.
Qed.

Lemma subdirs_existing_untouched_witness :
  let m := {| disk := {[ "out/generic" := File bytes_abc ]}; log := [] |} in
  disk m !! "out/generic" = Some (File bytes_abc)
  /\ disk (snd (make_subdirs join_slash "out" world_readonly subdirs m))
       !! "out/generic" = Some (File bytes_abc).
Proof.
  intros m. split; [reflexivity|].
  apply (proj1 (subdirs_existing_untouched join_slash "out" world_readonly m)).
  reflexivity.
Defined.

(** ** More on the pipeline *)

Lemma elem_of_written_paths (p : string) (evs : list Event) :
  p ∈ written_paths evs <-> exists data, FileWritten p data ∈ evs.
Proof.
  unfold written_paths. rewrite list_elem_of_omap. split.
  - intros (ev & Hev & Hp). destruct ev; try done. injection Hp as ->. by eexists.
  - intros (data & Hev). by exists (FileWritten p data).
Qed.

Section PipelineMore.

Variable path_join : list string -> string.
Variable OUTPUT_DIR : string.

Local Abbreviation item := (item_effect path_join OUTPUT_DIR).
Local Abbreviation run := (run_effect path_join OUTPUT_DIR).
Local Abbreviation target := (target_of path_join OUTPUT_DIR).
Local Abbreviation present := (present_count path_join OUTPUT_DIR).

Ltac item_split w dk :=
  unfold item_effect, target_of;
  destruct (truthy_url _) as [u|] eqn:Hurl;
  [ destruct (bool_decide (is_Some _)) eqn:Hpresent;
    [ | destruct (http_get w u) as [rejected|res] eqn:Hget;
        [ | destruct (ok res) eqn:Hok;
            [ destruct (body res) as [content|broken] eqn:Hbody;
              [ destruct (write_failure w dk _) as [refused|] eqn:Hwrite | ] | ] ] ]
  | ]; cbn.

Lemma item_accounting (w : World) (total : nat) (file : FileNode) (d : nat)
    (dk : gmap string Entry) :
  let evs := (item w total file d dk).2 in
  count is_no_url evs + count is_skipped evs + count is_content_request evs = 1
  /\ count is_content_request evs = count is_saved evs + count is_failure evs
  /\ count is_write evs = count is_saved evs
  /\ (item w total file d dk).1.1 = d + count is_skipped evs + count is_saved evs.
Proof. item_split w dk; repeat split; lia. Qed.

Lemma item_origin (w : World) (total : nat) (file : FileNode) (d : nat)
    (dk : gmap string Entry) (p : string) (e : Entry) :
  (item w total file d dk).1.2 !! p = Some e ->
  dk !! p = Some e
  \/ exists data, e = File data /\ FileWritten p data ∈ (item w total file d dk).2.
Proof.
  item_split w dk; try (by left).
  intros Hp. destruct (decide
    (filePath path_join OUTPUT_DIR (folder (resolveFileInfo file)) u = p)) as [<-|Hne].
  - rewrite lookup_insert_eq in Hp. injection Hp as <-. right.
    eexists. split; [done|]. right. left.
  - rewrite lookup_insert_ne in Hp by done. by left.
Qed.

Lemma item_provenance (w : World) (total : nat) (file : FileNode) (d : nat)
    (dk : gmap string Entry) (p : string) (data : Buffer) :
  FileWritten p data ∈ (item w total file d dk).2 ->
  exists url res,
    truthy_url (info_url (resolveFileInfo file)) = Some url
    /\ p = filePath path_join OUTPUT_DIR (folder (resolveFileInfo file)) url
    /\ http_get w url = Responded res /\ ok res = true
    /\ body res = BodyBytes data.
Proof.
  item_split w dk; intros H;
    repeat (apply elem_of_cons in H as [H|H]; try discriminate);
    try (by apply elem_of_nil in H).
  injection H as -> ->. by exists u, res.
Qed.

Lemma item_healthy (w : World) (total : nat) (file : FileNode) (d : nat)
    (dk : gmap string Entry) :
  healthy w -> count is_failure (item w total file d dk).2 = 0.
Proof.
  intros [Hget Hwr]. unfold item_effect.
  destruct (truthy_url _) as [u|]; [|done].
  destruct (bool_decide _); [done|].
  destruct (Hget u) as (res & data & -> & -> & ->). cbn. by rewrite Hwr.
Qed.

Lemma item_counted_present (w : World) (total : nat) (file : FileNode) (d : nat)
    (dk : gmap string Entry) :
  (item w total file d dk).1.1 = d
  \/ ((item w total file d dk).1.1 = S d
      /\ exists t, target file = Some t /\ is_Some ((item w total file d dk).1.2 !! t)).
Proof.
  item_split w dk; try (by left); right; (split; [done|]); eexists; (split; [done|]).
  - by apply bool_decide_eq_true in Hpresent.
  - rewrite lookup_insert_eq. by eexists.
Qed.

Lemma item_present_skipped (w : World) (total : nat) (file : FileNode) (d : nat)
    (dk : gmap string Entry) (t : string) :
  target file = Some t -> is_Some (dk !! t) ->
  (item w total file d dk).1.1 = S d
  /\ count is_skipped (item w total file d dk).2 = 1.
Proof.
  unfold item_effect, target_of.
  destruct (truthy_url _) as [u|]; [|done]. cbn. intros [= <-] Hsome.
  by rewrite bool_decide_true.
Qed.

(** *** Sequences *)

Lemma run_accounting (w : World) (total : nat) (files : list FileNode) (d : nat)
    (dk : gmap string Entry) :
  let evs := (run w total files d dk).2 in
  count is_no_url evs + count is_skipped evs + count is_content_request evs
    = length files
  /\ count is_content_request evs = count is_saved evs + count is_failure evs
  /\ count is_write evs = count is_saved evs
  /\ (run w total files d dk).1.1 = d + count is_skipped evs + count is_saved evs.
Proof.
  cbv zeta. revert d dk. induction files as [|file rest IH]; intros d dk.
  - cbn. repeat split; lia.
  - rewrite run_effect_cons. cbn [fst snd length]. rewrite !count_app.
    destruct (item_accounting w total file d dk) as (A1 & A2 & A3 & A4).
    destruct (IH (item w total file d dk).1.1 (item w total file d dk).1.2)
      as (B1 & B2 & B3 & B4).
    cbv zeta in *. repeat split; lia.
Qed.

Lemma run_origin (w : World) (total : nat) (files : list FileNode) (d : nat)
    (dk : gmap string Entry) (p : string) (e : Entry) :
  (run w total files d dk).1.2 !! p = Some e ->
  dk !! p = Some e
  \/ exists data, e = File data /\ FileWritten p data ∈ (run w total files d dk).2.
Proof.
  revert d dk. induction files as [|file rest IH]; intros d dk; [by left|].
  rewrite run_effect_cons. cbn [fst snd]. intros Hp.
  destruct (IH _ _ Hp) as [Hin|(data & -> & Hin)].
  - destruct (item_origin w total file d dk p e Hin) as [H|(data & -> & H)];
      [by left|].
    right. exists data. split; [done|]. apply elem_of_app. by left.
  - right. exists data. split; [done|]. apply elem_of_app. by right.
Qed.

Lemma run_provenance (w : World) (total : nat) (files : list FileNode) (d : nat)
    (dk : gmap string Entry) (p : string) (data : Buffer) :
  FileWritten p data ∈ (run w total files d dk).2 ->
  exists file url res,
    file ∈ files
    /\ truthy_url (info_url (resolveFileInfo file)) = Some url
    /\ p = filePath path_join OUTPUT_DIR (folder (resolveFileInfo file)) url
    /\ http_get w url = Responded res /\ ok res = true
    /\ body res = BodyBytes data.
Proof.
  revert d dk. induction files as [|file rest IH]; intros d dk.
  - cbn. intros H. by apply elem_of_nil in H.
  - rewrite run_effect_cons. cbn [fst snd]. rewrite elem_of_app. intros [H|H].
    + destruct (item_provenance w total file d dk p data H) as (url & res & Hrest).
      exists file, url, res. split; [left | done].
    + destruct (IH _ _ H) as (f & url & res & Hin & Hrest).
      exists f, url, res. split; [by right | done].
Qed.

Lemma run_writes_once (w : World) (total : nat) (files : list FileNode) (d : nat)
    (dk : gmap string Entry) :
  NoDup (written_paths (run w total files d dk).2).
Proof.
  revert d dk. induction files as [|file rest IH]; intros d dk; [constructor|].
  rewrite run_effect_cons. cbn [fst snd]. unfold written_paths. rewrite omap_app.
  apply NoDup_app. split; [|split; [|apply IH]].
  - unfold item_effect. destruct (truthy_url _); [|constructor].
    destruct (bool_decide _); [constructor|].
    destruct (http_get w _) as [|res]; [constructor|].
    destruct (ok res); [|constructor].
    destruct (body res); [|constructor].
    destruct (write_failure w dk _); cbn; [constructor|].
    apply NoDup_singleton.
  - intros p H1 H2.
    apply elem_of_written_paths in H1 as [data1 H1].
    apply elem_of_written_paths in H2 as [data2 H2].
    apply item_writes in H1 as [_ Hdisk].
    apply run_writes in H2 as [Hnone _].
    rewrite Hdisk in Hnone. by rewrite lookup_insert_eq in Hnone.
Qed.

Lemma run_healthy (w : World) (total : nat) (files : list FileNode) (d : nat)
    (dk : gmap string Entry) :
  healthy w -> count is_failure (run w total files d dk).2 = 0.
Proof.
  intros Hw. revert d dk. induction files as [|file rest IH]; intros d dk; [done|].
  rewrite run_effect_cons. cbn [fst snd]. rewrite count_app.
  rewrite (item_healthy w total file d dk Hw), IH. done.
Qed.

Lemma present_count_cons (dk : gmap string Entry) (file : FileNode)
    (rest : list FileNode) :
  present dk (file :: rest) = present dk [file] + present dk rest.
Proof.
  unfold present_count. cbn. by destruct (target file) as [t|]; [destruct (bool_decide _)|].
Qed.

Lemma present_count_mono (dk dk' : gmap string Entry) (files : list FileNode) :
  (forall p e, dk !! p = Some e -> dk' !! p = Some e) ->
  present dk files <= present dk' files.
Proof.
  intros Hsub. induction files as [|file rest IH]; [done|].
  rewrite (present_count_cons dk), (present_count_cons dk').
  assert (present dk [file] <= present dk' [file]); [|lia].
  unfold present_count. cbn. destruct (target file) as [t|]; [|done].
  destruct (bool_decide (is_Some (dk !! t))) eqn:E; [|cbn; lia].
  apply bool_decide_eq_true in E as [e He].
  rewrite bool_decide_true; [done|]. exists e. by apply Hsub.
Qed.

Lemma run_counted_present (w : World) (total : nat) (files : list FileNode)
    (d : nat) (dk : gmap string Entry) :
  (run w total files d dk).1.1 <= d + present (run w total files d dk).1.2 files.
Proof.
  revert d dk. induction files as [|file rest IH]; intros d dk; [cbn; lia|].
  rewrite run_effect_cons. cbn [fst snd]. rewrite present_count_cons.
  specialize (IH (item w total file d dk).1.1 (item w total file d dk).1.2).
  destruct (item_counted_present w total file d dk) as [Hd|(Hd & t & Ht & [e He])];
    [lia|].
  assert (present (run w total rest (item w total file d dk).1.1
                     (item w total file d dk).1.2).1.2 [file] = 1); [|lia].
  unfold present_count. cbn. rewrite Ht.
  rewrite bool_decide_true; [done|]. exists e. by apply run_frame.
Qed.

Lemma run_counts_present (w : World) (total : nat) (files : list FileNode)
    (d : nat) (dk : gmap string Entry) :
  d + present dk files <= (run w total files d dk).1.1
  /\ present dk files <= count is_skipped (run w total files d dk).2.
Proof.
  revert d dk. induction files as [|file rest IH]; intros d dk; [cbn; lia|].
  rewrite run_effect_cons. cbn [fst snd]. rewrite present_count_cons, count_app.
  destruct (IH (item w total file d dk).1.1 (item w total file d dk).1.2) as [IH1 IH2].
  pose proof (present_count_mono dk (item w total file d dk).1.2 rest
                (item_frame path_join OUTPUT_DIR w total file d dk)) as Hmono.
  destruct (item_counter path_join OUTPUT_DIR w total file d dk) as (Hd & _ & _).
  unfold present_count at 1 3. cbn [List.filter].
  destruct (target file) as [t|] eqn:Ht; [|cbn; lia].
  destruct (bool_decide (is_Some (dk !! t))) eqn:E; [|cbn; lia].
  apply bool_decide_eq_true in E.
  destruct (item_present_skipped w total file d dk t Ht E) as [Hs Hk].
  cbn [length]. lia.
Qed.

End PipelineMore.

Lemma item_handled (path_join : list string -> string) (OUTPUT_DIR : string)
    (w : World) (total : nat) (file : FileNode) (d : nat) (dk : gmap string Entry) :
  handled path_join OUTPUT_DIR total file
    (item_effect path_join OUTPUT_DIR w total file d dk).2.
Proof.
  unfold handled, item_effect, url_of.
  destruct (truthy_url _) as [u|]; [|done]. cbv zeta.
  destruct (bool_decide (is_Some _)); [left; by eexists|].
  destruct (http_get w u) as [rejected|res];
    [right; right; left; by eexists|].
  destruct (ok res); [|right; left; by eexists].
  destruct (body res) as [content|broken];
    [|right; right; left; by eexists].
  destruct (write_failure w dk _) as [refused|];
    [right; right; left; by eexists|].
  right; right; right. by eexists _, _.
Qed.

Lemma run_handled (path_join : list string -> string) (OUTPUT_DIR : string)
    (w : World) (total : nat) (files : list FileNode) (d : nat)
    (dk : gmap string Entry) :
  exists blocks,
    (run_effect path_join OUTPUT_DIR w total files d dk).2 = concat blocks
    /\ Forall2 (handled path_join OUTPUT_DIR total) files blocks.
Proof.
  revert d dk. induction files as [|file rest IH]; intros d dk.
  - exists []. split; [done | constructor].
  - rewrite run_effect_cons. cbn [fst snd].
    destruct (IH (item_effect path_join OUTPUT_DIR w total file d dk).1.1
                 (item_effect path_join OUTPUT_DIR w total file d dk).1.2)
      as (blocks & -> & Hall).
    exists ((item_effect path_join OUTPUT_DIR w total file d dk).2 :: blocks).
    split; [done|]. constructor; [apply item_handled | done].
Qed.

(** X9: every record of a run is handled in exactly one of three ways: the
    events of the run are, record by record and in the order of the records,
    either the no-URL warning for that record, or the line that it was
    skipped as already present, or exactly one content request for its URL
    (there is no second attempt) ending in a failure diagnostic or in the
    write to its target followed by the progress line.  Hence the numbers of
    warnings, skips and requests add up to the number of records, every
    request ends saved or failed, every write has its progress line, and the
    counter of the summary is the number of skipped plus saved records. *)
Theorem downloadFiles_accounting (path_join : list string -> string)
    (OUTPUT_DIR : string) (w : World) (files : list FileNode) (m : Machine) :
  exists evs d,
    log (snd (downloadFiles path_join OUTPUT_DIR w files m))
      = log m ++ evs ++ [LogAllProcessed d (length files)]
    /\ (exists blocks,
          evs = concat blocks
          /\ Forall2 (handled path_join OUTPUT_DIR (length files)) files blocks)
    /\ count is_no_url evs + count is_skipped evs + count is_content_request evs
         = length files
    /\ count is_content_request evs = count is_saved evs + count is_failure evs
    /\ count is_write evs = count is_saved evs
    /\ d = count is_skipped evs + count is_saved evs.
Proof.
  rewrite downloadFiles_effect. cbn [snd log]. eexists _, _. split; [done|].
  split; [apply run_handled|].
  destruct (run_accounting path_join OUTPUT_DIR w (length files) files 0 (disk m))
    as (H1 & H2 & H3 & H4).
  cbv zeta in *. repeat split; (done || lia).
Qed.

(** X10: within one run no path is written twice, also when several records
    share a target path. *)
Theorem downloadFiles_writes_each_path_once (path_join : list string -> string)
    (OUTPUT_DIR : string) (w : World) (files : list FileNode) (m : Machine) :
  exists evs d,
    log (snd (downloadFiles path_join OUTPUT_DIR w files m))
      = log m ++ evs ++ [LogAllProcessed d (length files)]
    /\ NoDup (written_paths evs).
Proof.
  rewrite downloadFiles_effect. cbn [snd log]. eexists _, _. split; [done|].
  apply run_writes_once.
Qed.

(** X11: what a run writes is what the server sent: every write of a run puts,
    at the target path of one of the records, the body of a successful
    response to that record's URL, the folder is one of the five folders of
    the recognised kinds (never unknown), and the file is on the disk with
    that content when the run ends. *)
Theorem downloadFiles_writes_served_content (path_join : list string -> string)
    (OUTPUT_DIR : string) (w : World) (files : list FileNode) (m : Machine) :
  exists evs d,
    log (snd (downloadFiles path_join OUTPUT_DIR w files m))
      = log m ++ evs ++ [LogAllProcessed d (length files)]
    /\ forall p data,
         FileWritten p data ∈ evs ->
         disk (snd (downloadFiles path_join OUTPUT_DIR w files m)) !! p
           = Some (File data)
         /\ exists file url res,
              file ∈ files
              /\ truthy_url (info_url (resolveFileInfo file)) = Some url
              /\ p = path_join [OUTPUT_DIR; folder (resolveFileInfo file); fileName url]
              /\ folder (resolveFileInfo file) ∈ known_folders
              /\ http_get w url = Responded res /\ ok res = true
              /\ body res = BodyBytes data.
Proof.
  rewrite downloadFiles_effect. cbn [snd log disk]. eexists _, _. split; [done|].
  intros p data H. split; [by apply run_writes in H as [_ H]|].
  destruct (run_provenance path_join OUTPUT_DIR w _ _ _ _ p data H)
    as (file & url & res & Hin & Hurl & Hp & Hget & Hok & Hbody).
  exists file, url, res. repeat split; try done.
  unfold resolveFileInfo in *. unfold known_folders.
  repeat (destruct (String.eqb _ _); [cbn; rewrite !elem_of_cons; tauto|]).
  done.
Qed.

(** X12: a run creates nothing but the files it reports: every entry on the
    disk after a run was there before the run, unchanged, or is a file written
    by the run; no directory is created and nothing is removed. *)
Theorem downloadFiles_disk_origin (path_join : list string -> string)
    (OUTPUT_DIR : string) (w : World) (files : list FileNode) (m : Machine) :
  exists evs d,
    log (snd (downloadFiles path_join OUTPUT_DIR w files m))
      = log m ++ evs ++ [LogAllProcessed d (length files)]
    /\ forall p e,
         disk (snd (downloadFiles path_join OUTPUT_DIR w files m)) !! p = Some e
         <-> (disk m !! p = Some e
              \/ exists data, e = File data /\ FileWritten p data ∈ evs).
Proof.
  rewrite downloadFiles_effect. cbn [snd log disk]. eexists _, _. split; [done|].
  intros p e. split.
  - apply run_origin.
  - intros [H|(data & -> & H)]; [by apply run_frame|].
    by apply run_writes in H as [_ H].
Qed.

(** X13: against a server that answers every content request with success and
    a file system that refuses no write, a run ends with every record that
    has a URL present at its target path, reports no failure, and counts
    exactly the records that have a URL. *)
Theorem downloadFiles_healthy_world (path_join : list string -> string)
    (OUTPUT_DIR : string) (w : World) (files : list FileNode) (m : Machine) :
  healthy w ->
  (forall file t,
     file ∈ files -> target_of path_join OUTPUT_DIR file = Some t ->
     is_Some (disk (snd (downloadFiles path_join OUTPUT_DIR w files m)) !! t))
  /\ exists evs,
       log (snd (downloadFiles path_join OUTPUT_DIR w files m))
         = log m ++ evs
              ++ [LogAllProcessed (with_url path_join OUTPUT_DIR files) (length files)]
       /\ count is_failure evs = 0.
Proof.
  intros Hw. rewrite downloadFiles_effect. cbn [snd log disk].
  pose proof (run_healthy path_join OUTPUT_DIR w (length files) files 0 (disk m) Hw)
    as Hclean.
  destruct (run_without_failure path_join OUTPUT_DIR w (length files) files 0 (disk m)
              Hclean) as [Hpresent Hd].
  split; [exact Hpresent|]. eexists. split; [|exact Hclean]. by rewrite Hd.
Qed.

Lemma downloadFiles_healthy_world_witness :
  healthy world_ok
  /\ is_Some (disk (snd (downloadFiles join_slash "out" world_ok
                           [generic_a; image_without_image; external_y]
                           fresh_machine)) !! "out/external/y.mp4").
Proof.
  assert (H : healthy world_ok).
  { split; [|done]. intros u. by eexists _, _. }
  split; [exact H|].
  apply (proj1 (downloadFiles_healthy_world join_slash "out" world_ok
                  [generic_a; image_without_image; external_y] fresh_machine H)
           external_y).
  - rewrite !elem_of_cons. tauto.
  - reflexivity.
Defined.

(** X14: progress is never lost between runs: whatever the server and the file
    system do in either run, a second run over the same sequence, against the
    disk the first run left, reports at least the downloaded count of the
    first run, and makes a content request for at most the records that the
    first run did not count. *)
Theorem second_run_keeps_progress (path_join : list string -> string)
    (OUTPUT_DIR : string) (w1 w2 : World) (files : list FileNode)
    (dk0 : gmap string Entry) :
  let run1 := downloadFiles path_join OUTPUT_DIR w1 files
                {| disk := dk0; log := [] |} in
  let run2 := downloadFiles path_join OUTPUT_DIR w2 files
                {| disk := disk (snd run1); log := [] |} in
  exists d1 d2,
    last (log (snd run1)) = Some (LogAllProcessed d1 (length files))
    /\ last (log (snd run2)) = Some (LogAllProcessed d2 (length files))
    /\ d1 <= d2
    /\ count is_content_request (log (snd run2)) + d1 <= length files.
Proof.
  intros run1 run2. subst run1 run2. rewrite !downloadFiles_effect.
  cbn [snd disk log app]. eexists _, _. rewrite !last_snoc.
  split; [done|]. split; [done|].
  rewrite count_summary by done.
  pose proof (run_counted_present path_join OUTPUT_DIR w1 (length files) files 0 dk0)
    as H1.
  destruct (run_counts_present path_join OUTPUT_DIR w2 (length files) files 0
              (run_effect path_join OUTPUT_DIR w1 (length files) files 0 dk0).1.2)
    as [H2 H3].
  destruct (run_accounting path_join OUTPUT_DIR w2 (length files) files 0
              (run_effect path_join OUTPUT_DIR w1 (length files) files 0 dk0).1.2)
    as (A1 & _).
  cbv zeta in A1. split; lia.
Qed.

(** ** More on file names and folders *)

Lemma take_segment_no_sep (l : list ascii) : Path.sep ∉ Path.take_segment l.
Proof.
  induction l as [|c l IH]; cbn; [apply not_elem_of_nil|].
  destruct (Ascii.eqb c Path.sep) eqn:E; [apply not_elem_of_nil|].
  apply Ascii.eqb_neq in E. rewrite not_elem_of_cons. split; [congruence | done].
Qed.

Lemma take_segment_sub (l : list ascii) (x : ascii) :
  x ∈ Path.take_segment l -> x ∈ l.
Proof.
  induction l as [|c l IH]; cbn; [done|].
  destruct (Ascii.eqb c Path.sep); [intros H; by apply elem_of_nil in H|].
  rewrite !elem_of_cons. intros [->|H]; [by left | right; by apply IH].
Qed.

Lemma drop_seps_sub (l : list ascii) (x : ascii) :
  x ∈ Path.drop_seps l -> x ∈ l.
Proof.
  induction l as [|c l IH]; cbn; [done|].
  destruct (Ascii.eqb c Path.sep); [|done]. intros H. right. by apply IH.
Qed.

Lemma before_first_without (c : ascii) (s : string) :
  c ∉ Path.chars (before_first c s).
Proof.
  induction s as [|a s IH]; cbn [before_first]; [apply not_elem_of_nil|].
  destruct (Ascii.eqb a c) eqn:E; [apply not_elem_of_nil|].
  apply Ascii.eqb_neq in E. change (Path.chars (String a (before_first c s)))
    with (a :: Path.chars (before_first c s)).
  rewrite not_elem_of_cons. split; [congruence | done].
Qed.

Lemma before_first_append (c : ascii) (u q : string) :
  c ∉ Path.chars u -> before_first c (u +:+ String c q) = u.
Proof.
  unfold Path.chars. induction u as [|a u IH].
  - intros _. change ("" +:+ String c q) with (String c q).
    cbn [before_first]. by rewrite Ascii.eqb_refl.
  - change (String a u +:+ String c q) with (String a (u +:+ String c q)).
    cbn [before_first list_ascii_of_string].
    rewrite not_elem_of_cons. intros [Hne Hu].
    apply not_eq_sym, Ascii.eqb_neq in Hne. rewrite Hne. by rewrite IH.
Qed.

(** X15: a file name never contains a path separator nor a question mark,
    whatever the URL is. *)
Theorem fileName_has_no_separator (u : string) :
  (Path.sep ∉ Path.chars (fileName u)) /\ ("?"%char ∉ Path.chars (fileName u)).
Proof.
  unfold fileName, Path.basename. rewrite chars_of_chars. split.
  - rewrite elem_of_reverse. apply take_segment_no_sep.
  - rewrite elem_of_reverse. intros H.
    apply take_segment_sub, drop_seps_sub in H. rewrite elem_of_reverse in H.
    rewrite cleanUrl_before_first in H. by apply before_first_without in H.
Qed.

(** X16: the query string has no influence on the file name: a URL without a
    question mark and the same URL followed by any query string get the same
    file name. *)
Theorem fileName_ignores_query (u q : string) :
  ("?"%char ∉ Path.chars u) ->
  cleanUrl (u +:+ String "?"%char q) = u
  /\ fileName (u +:+ String "?"%char q) = fileName u.
Proof.
  intros Hu.
  assert (H1 : cleanUrl (u +:+ String "?"%char q) = u).
  { rewrite cleanUrl_before_first. by apply before_first_append. }
  assert (H2 : cleanUrl u = u).
  { rewrite cleanUrl_before_first.
    clear H1. induction u as [|a u IH]; cbn [before_first]; [done|].
    change (Path.chars (String a u)) with (a :: Path.chars u) in Hu.
    rewrite not_elem_of_cons in Hu. destruct Hu as [Hne Hu].
    apply not_eq_sym, Ascii.eqb_neq in Hne. rewrite Hne. by rewrite IH. }
  split; [done|]. unfold fileName. by rewrite H1, H2.
Qed.

Lemma fileName_ignores_query_witness :
  ("?"%char ∉ Path.chars "https://cdn.example.com/files/a.zip")
  /\ fileName "https://cdn.example.com/files/a.zip?v=1&w=2"
       = fileName "https://cdn.example.com/files/a.zip".
Proof.
  assert (H : "?"%char ∉ Path.chars "https://cdn.example.com/files/a.zip").
  { cbn. rewrite !not_elem_of_cons. repeat split; try discriminate.
    apply not_elem_of_nil. }
  split; [exact H|].
  exact (proj2 (fileName_ignores_query "https://cdn.example.com/files/a.zip"
                  "v=1&w=2" H)).
Defined.

(** X17: the folder that [resolveFileInfo] returns is always one of the six
    subdirectories that the start-up loop creates; it is unknown exactly for
    the kinds outside the five recognised ones; and a record that resolves to
    a URL never has the folder unknown, so nothing is ever stored there. *)
Theorem resolved_folder_is_subdir (file : FileNode) :
  folder (resolveFileInfo file) ∈ subdirs
  /\ (folder (resolveFileInfo file) = "unknown" <-> typename file ∉ known_kinds)
  /\ (is_Some (info_url (resolveFileInfo file)) ->
      folder (resolveFileInfo file) ∈ known_folders).
Proof.
  unfold resolveFileInfo, subdirs, known_kinds, known_folders.
  destruct (String.eqb (typename file) "GenericFile") eqn:E1;
    [apply String.eqb_eq in E1; rewrite E1; cbn; rewrite !elem_of_cons;
     repeat split; try tauto; try discriminate; intros H; exfalso; apply H; tauto|].
  destruct (String.eqb (typename file) "MediaImage") eqn:E2;
    [apply String.eqb_eq in E2; rewrite E2; cbn; rewrite !elem_of_cons;
     repeat split; try tauto; try discriminate; intros H; exfalso; apply H; tauto|].
  destruct (String.eqb (typename file) "Video") eqn:E3;
    [apply String.eqb_eq in E3; rewrite E3; cbn; rewrite !elem_of_cons;
     repeat split; try tauto; try discriminate; intros H; exfalso; apply H; tauto|].
  destruct (String.eqb (typename file) "ExternalVideo") eqn:E4;
    [apply String.eqb_eq in E4; rewrite E4; cbn; rewrite !elem_of_cons;
     repeat split; try tauto; try discriminate; intros H; exfalso; apply H; tauto|].
  destruct (String.eqb (typename file) "Model3d") eqn:E5;
    [apply String.eqb_eq in E5; rewrite E5; cbn; rewrite !elem_of_cons;
     repeat split; try tauto; try discriminate; intros H; exfalso; apply H; tauto|].
  apply String.eqb_neq in E1, E2, E3, E4, E5. cbn.
  split; [rewrite !elem_of_cons; tauto|]. split.
  - split; [|done]. intros _. rewrite !not_elem_of_cons.
    repeat split; try done. apply not_elem_of_nil.
  - intros [x Hx]. discriminate.
Qed.

Lemma resolved_folder_is_subdir_witness :
  is_Some (info_url (resolveFileInfo external_y))
  /\ folder (resolveFileInfo external_y) ∈ known_folders.
Proof.
  assert (H : is_Some (info_url (resolveFileInfo external_y))) by (by eexists).
  split; [exact H|].
  exact (proj2 (proj2 (resolved_folder_is_subdir external_y)) H).
Defined.

(** ** The whole program *)

(** X18: when SHOPIFY_STORE or ACCESS_TOKEN is unset or empty, the program
    prints the missing-configuration error and exits with status 1 at once:
    no directory is created, no request is sent, and the disk is as it
    was. *)
Theorem program_requires_configuration (path_join : list string -> string)
    (w : World) (env : ProcessEnv) (script : list Response) (m : Machine) :
  SHOPIFY_STORE env = None \/ SHOPIFY_STORE env = Some ""
  \/ ACCESS_TOKEN env = None \/ ACCESS_TOKEN env = Some "" ->
  program path_join w env script m =
    (Exit 1, {| disk := disk m; log := log m ++ [ErrMissingConfig] |})
  /\ exit_status (fst (program path_join w env script m)) = Some 1%Z.
Proof.
  intros H. unfold program.
  assert (Hguard : truthy_url (SHOPIFY_STORE env) = None
                   \/ truthy_url (ACCESS_TOKEN env) = None).
  { destruct H as [-> | [-> | [-> | ->]]]; cbn; tauto. }
  destruct (truthy_url (SHOPIFY_STORE env)), (truthy_url (ACCESS_TOKEN env));
    try done; destruct Hguard; done.
Qed.

Lemma program_requires_configuration_witness :
  let env := {| SHOPIFY_STORE := Some "demo"; ACCESS_TOKEN := Some "";
                env_OUTPUT_DIR := None |} in
  (SHOPIFY_STORE env = None \/ SHOPIFY_STORE env = Some ""
   \/ ACCESS_TOKEN env = None \/ ACCESS_TOKEN env = Some "")
  /\ exit_status (fst (program join_slash world_ok env [FilesData page_two]
                         fresh_machine)) = Some 1%Z.
Proof.
  intros env.
  assert (H : SHOPIFY_STORE env = None \/ SHOPIFY_STORE env = Some ""
              \/ ACCESS_TOKEN env = None \/ ACCESS_TOKEN env = Some "")
    by (right; right; right; reflexivity).
  split; [exact H|].
  exact (proj2 (program_requires_configuration join_slash world_ok env
                  [FilesData page_two] fresh_machine H)).
Defined.

Lemma program_configured (path_join : list string -> string) (w : World)
    (env : ProcessEnv) (script : list Response) (m : Machine) :
  configured env ->
  program path_join w env script m =
    bind (make_subdirs path_join (output_dir env) w subdirs)
         (fun _ => main path_join (output_dir env) w script) m.
Proof.
  intros [[s Hs] [t Ht]]. unfold program. by rewrite Hs, Ht.
Qed.

(** X19: the subdirectories are created outside the try block: with a valid
    configuration, when one of the six subdirectories is missing and the file
    system refuses to create directories, the refusal is thrown out of the
    program uncaught, so the process ends with status 1; nothing is printed,
    no request is sent and the disk is as it was. *)
Theorem program_aborts_when_mkdir_refused (path_join : list string -> string)
    (w : World) (env : ProcessEnv) (script : list Response) (m : Machine)
    (msg : string) :
  configured env ->
  (forall dk p, mkdir_failure w dk p = Some msg) ->
  (exists dir, dir ∈ subdirs /\ disk m !! path_join [output_dir env; dir] = None) ->
  program path_join w env script m = (Throw (Error msg), m)
  /\ exit_status (fst (program path_join w env script m)) = Some 1%Z.
Proof.
  intros Hcfg Hfail Hmissing. rewrite program_configured by done.
  unfold bind. rewrite (make_subdirs_refused _ _ _ _ _ msg Hfail Hmissing). done.
Qed.

Lemma program_aborts_when_mkdir_refused_witness :
  configured env_ok
  /\ (forall dk p, mkdir_failure world_readonly dk p
                     = Some "EROFS: read-only file system")
  /\ (exists dir, dir ∈ subdirs
                  /\ disk fresh_machine !! join_slash [output_dir env_ok; dir] = None)
  /\ fst (program join_slash world_readonly env_ok [FilesData page_two] fresh_machine)
       = Throw (Error "EROFS: read-only file system").
Proof.
  assert (H1 : configured env_ok) by (split; by eexists).
  assert (H2 : forall dk p, mkdir_failure world_readonly dk p
                              = Some "EROFS: read-only file system") by done.
  assert (H3 : exists dir, dir ∈ subdirs
                 /\ disk fresh_machine !! join_slash [output_dir env_ok; dir] = None).
  { exists "generic". split; [left | reflexivity]. }
  split; [exact H1|]. split; [exact H2|]. split; [exact H3|].
  exact (f_equal fst (proj1 (program_aborts_when_mkdir_refused join_slash
                               world_readonly env_ok [FilesData page_two]
                               fresh_machine _ H1 H2 H3))).
Defined.



(** ** Order of the effects of a run *)

Lemma run_progress_values (path_join : list string -> string) (OUTPUT_DIR : string)
    (w : World) (total : nat) (files : list FileNode) (d : nat)
    (dk : gmap string Entry) :
  progress_values (run_effect path_join OUTPUT_DIR w total files d dk).2
    = seq (S d) ((run_effect path_join OUTPUT_DIR w total files d dk).1.1 - d)
  /\ d <= (run_effect path_join OUTPUT_DIR w total files d dk).1.1.
Proof.
  revert d dk. induction files as [|file rest IH]; intros d dk.
  - cbn. by rewrite Nat.sub_diag.
  - rewrite run_effect_cons. cbn [fst snd]. unfold progress_values in *.
    rewrite omap_app.
    destruct (IH (item_effect path_join OUTPUT_DIR w total file d dk).1.1
                 (item_effect path_join OUTPUT_DIR w total file d dk).1.2)
      as [IH1 IH2].
    rewrite IH1. clear IH1.
    set (r := run_effect path_join OUTPUT_DIR w total rest _ _) in *.
    clearbody r. revert IH2. unfold item_effect.
    destruct (truthy_url _) as [u|]; [|cbn; intros; split; [done | lia]].
    destruct (bool_decide (is_Some _)).
    { cbn. intros. split; [|lia].
      replace (r.1.1 - d) with (S (r.1.1 - S d)) by lia. done. }
    destruct (http_get w u) as [|res]; [cbn; intros; split; [done | lia]|].
    destruct (ok res); [|cbn; intros; split; [done | lia]].
    destruct (body res); [|cbn; intros; split; [done | lia]].
    destruct (write_failure w dk _); [cbn; intros; split; [done | lia]|].
    cbn. intros. split; [|lia].
    replace (r.1.1 - d) with (S (r.1.1 - S d)) by lia. done.
Qed.

(** X21: the progress lines of a run count up without a gap: the counters they
    show are 1, 2, ... up to the downloaded count of the summary, in this
    order. *)
Theorem progress_lines_count_up (path_join : list string -> string)
    (OUTPUT_DIR : string) (w : World) (files : list FileNode) (m : Machine) :
  exists evs d,
    log (snd (downloadFiles path_join OUTPUT_DIR w files m))
      = log m ++ evs ++ [LogAllProcessed d (length files)]
    /\ progress_values evs = seq 1 d.
Proof.
  rewrite downloadFiles_effect. cbn [snd log]. eexists _, _. split; [done|].
  destruct (run_progress_values path_join OUTPUT_DIR w (length files) files 0 (disk m))
    as [H _].
  by rewrite Nat.sub_0_r in H.
Qed.

Lemma run_requests_in_order (path_join : list string -> string) (OUTPUT_DIR : string)
    (w : World) (total : nat) (files : list FileNode) (d : nat)
    (dk : gmap string Entry) :
  requested_urls (run_effect path_join OUTPUT_DIR w total files d dk).2
    `sublist_of` omap url_of files.
Proof.
  revert d dk. induction files as [|file rest IH]; intros d dk; [done|].
  rewrite run_effect_cons. cbn [fst snd]. unfold requested_urls in *.
  rewrite omap_app.
  replace (omap url_of (file :: rest))
    with (omap url_of [file] ++ omap url_of rest) by (by rewrite <- omap_app).
  apply sublist_app; [|apply IH].
  unfold item_effect, url_of. cbn [omap list_omap].
  destruct (truthy_url _) as [u|]; [|done].
  destruct (bool_decide (is_Some _)); [cbn; by apply sublist_cons_r; left|].
  destruct (http_get w u) as [|res]; [done|].
  destruct (ok res); [|done].
  destruct (body res); [|done].
  by destruct (write_failure w dk _).
Qed.

(** X22: content is requested in catalog order: the URLs requested during a
    run, in the order of the requests, form a subsequence of the URLs that the
    records resolve to, in the order of the records. *)
Theorem content_requested_in_order (path_join : list string -> string)
    (OUTPUT_DIR : string) (w : World) (files : list FileNode) (m : Machine) :
  exists evs d,
    log (snd (downloadFiles path_join OUTPUT_DIR w files m))
      = log m ++ evs ++ [LogAllProcessed d (length files)]
    /\ requested_urls evs `sublist_of` omap url_of files.
Proof.
  rewrite downloadFiles_effect. cbn [snd log]. eexists _, _. split; [done|].
  apply run_requests_in_order.
Qed.
